(** * track_applications: Gmail job-application tracker -> CSV

    A shallow embedding of [track_applications.py] and the properties of its
    classification, field-extraction and persistence pipeline.

    Conventions of the model.
    - A Python [str] is a [string]: a sequence of 8-bit characters.  The
      character operations ([str.lower], [str.strip], [\b], [\s], [re.I])
      are those of Python on the ASCII range; a character above 127 has no
      case, is no word character and is no white space.
    - Functions of libraries the script calls ([email.utils.parseaddr],
      [parsedate_to_datetime], [BeautifulSoup.get_text], the UTF-8 codec,
      the Gmail service) are parameters of the section that uses them.
    - Code that can raise returns a [result]; [try/except] is [catch]. *)

From Stdlib Require Import String Ascii List Bool Arith ZArith Lia.
From stdpp Require Import base gmap sets strings.
Import ListNotations.
Open Scope string_scope.
Open Scope list_scope.
Open Scope nat_scope.
Set Warnings "-clear-no-such-hyp".

(** ** Exceptions *)

Inductive exn : Type :=
| UnicodeEncodeError
| BinasciiError
| ValueError
| OverflowError
| HttpError
| KeyError
| ParserRejectedMarkup.

Inductive result (A : Type) : Type :=
| Ok (a : A)
| Raise (e : exn).
Arguments Ok {A} a.
Arguments Raise {A} e.

Definition rbind {A B : Type} (m : result A) (f : A -> result B) : result B :=
  match m with
  | Ok a => f a
  | Raise e => Raise e
  end.

Definition catch {A : Type} (m : result A) (h : exn -> result A) : result A :=
  match m with
  | Ok a => Ok a
  | Raise e => h e
  end.

Notation "x <-- m ;; k" := (rbind m (fun x => k))
  (at level 100, m at next level, right associativity).

(** ** Python string operations *)

Module Text.

Definition code (c : ascii) : nat := nat_of_ascii c.

Definition between (lo hi : nat) (c : ascii) : bool :=
  (lo <=? code c) && (code c <=? hi).

Definition is_upper (c : ascii) : bool := between 65 90 c.
Definition is_lower (c : ascii) : bool := between 97 122 c.
Definition is_digit (c : ascii) : bool := between 48 57 c.

(** [str.isspace] on the ASCII range: TAB..CR, FS..US and the space. *)
Definition is_space (c : ascii) : bool :=
  between 9 13 c || between 28 32 c.

(** [\w]: alphanumeric or underscore. *)
Definition is_word (c : ascii) : bool :=
  is_upper c || is_lower c || is_digit c || (code c =? 95).

Definition lower_char (c : ascii) : ascii :=
  if is_upper c then ascii_of_nat (code c + 32) else c.

Definition upper_char (c : ascii) : ascii :=
  if is_lower c then ascii_of_nat (code c - 32) else c.

Fixpoint map_chars (f : ascii -> ascii) (s : string) : string :=
  match s with
  | EmptyString => EmptyString
  | String c s' => String (f c) (map_chars f s')
  end.

(** [s.lower()] *)
Definition lower (s : string) : string := map_chars lower_char s.

(** [s.capitalize()]: first character upper-cased, the others lower-cased. *)
Definition capitalize (s : string) : string :=
  match s with
  | EmptyString => EmptyString
  | String c s' => String (upper_char c) (lower s')
  end.

(** A Python string is true when it is not empty. *)
Definition truthy (s : string) : bool :=
  match s with
  | EmptyString => false
  | String _ _ => true
  end.

(** [o or ""] for an optional string. *)
Definition or_empty (o : option string) : string :=
  match o with
  | Some s => s
  | None => EmptyString
  end.

Fixpoint lstrip_by (f : ascii -> bool) (s : string) : string :=
  match s with
  | EmptyString => EmptyString
  | String c s' => if f c then lstrip_by f s' else s
  end.

Fixpoint rstrip_by (f : ascii -> bool) (s : string) : string :=
  match s with
  | EmptyString => EmptyString
  | String c s' =>
      match rstrip_by f s' with
      | EmptyString => if f c then EmptyString else String c EmptyString
      | r => String c r
      end
  end.

Definition strip_by (f : ascii -> bool) (s : string) : string :=
  rstrip_by f (lstrip_by f s).

(** [s.strip()] *)
Definition strip (s : string) : string := strip_by is_space s.

Fixpoint mem_char (c : ascii) (cs : string) : bool :=
  match cs with
  | EmptyString => false
  | String d cs' => Ascii.eqb c d || mem_char c cs'
  end.

(** [s.strip(chars)] *)
Definition strip_chars (chars : string) (s : string) : string :=
  strip_by (fun c => mem_char c chars) s.

(** [s[:n]] *)
Definition take (n : nat) (s : string) : string := substring 0 n s.

(** [s.split(sep)] for a one-character separator: never an empty list. *)
Fixpoint split_on (sep : ascii) (s : string) : list string :=
  match s with
  | EmptyString => [EmptyString]
  | String c s' =>
      match split_on sep s' with
      | [] => [EmptyString]
      | w :: ws => if Ascii.eqb c sep then EmptyString :: w :: ws
                   else String c w :: ws
      end
  end.

(** [l[0]] and [l[-1]] on the result of a split. *)
Definition first_item (l : list string) : string := hd EmptyString l.
Definition last_item (l : list string) : string := List.last l EmptyString.

(** [s[len(w):]] when [s.startswith(w)]. *)
Fixpoint strip_prefix (w s : string) : option string :=
  match w with
  | EmptyString => Some s
  | String c w' =>
      match s with
      | String d s' => if Ascii.eqb c d then strip_prefix w' s' else None
      | EmptyString => None
      end
  end.

(** Every character of [s] satisfies [f]. *)
Fixpoint all_chars (f : ascii -> bool) (s : string) : bool :=
  match s with
  | EmptyString => true
  | String c s' => f c && all_chars f s'
  end.

(** [s.replace(a, b)] for single characters. *)
Definition replace_char (a b : ascii) (s : string) : string :=
  map_chars (fun c => if Ascii.eqb c a then b else c) s.

End Text.

(** ** The fragment of Python's [re] the script uses

    A backtracking matcher with Python's priorities: the alternatives of
    [|] are tried from left to right, [*] is greedy, [re.search] returns the
    leftmost match. *)

Module Regex.
Import Text.

Inductive regex : Type :=
| Eps
| Chr (c : ascii)                 (* a literal character *)
| Any                             (* [.]: any character but a newline *)
| Space                           (* [\s] *)
| OneOf (cs : string)             (* [[...]] *)
| WordB                           (* [\b] *)
| Bol                             (* [^] *)
| Seq (r1 r2 : regex)
| Alt (r1 r2 : regex)
| Star (r : regex)
| Group (n : nat) (r : regex).    (* the n-th capturing group *)

(** A literal word: the sequence of its characters. *)
Fixpoint lit (s : string) : regex :=
  match s with
  | EmptyString => Eps
  | String c s' => Seq (Chr c) (lit s')
  end.

(** [r+] *)
Definition Plus (r : regex) : regex := Seq r (Star r).

Definition newline : ascii := ascii_of_nat 10.

(** The matcher's position: the character before it, the text after it and
    the groups captured so far (most recent first). *)
Record mstate : Type := MState {
  prev : option ascii;
  rest : string;
  groups : list (nat * string)
}.

Definition advance (c : ascii) (s' : string) (st : mstate) : mstate :=
  MState (Some c) s' (groups st).

Definition word_before (st : mstate) : bool :=
  match prev st with
  | Some c => is_word c
  | None => false
  end.

Definition word_after (st : mstate) : bool :=
  match rest st with
  | String c _ => is_word c
  | EmptyString => false
  end.

(** The text consumed between two positions of one run. *)
Definition consumed (st st' : mstate) : string :=
  substring 0 (String.length (rest st) - String.length (rest st')) (rest st).

Definition capture (n : nat) (st st' : mstate) : mstate :=
  MState (prev st') (rest st') ((n, consumed st st') :: groups st').

Section Matcher.

(** [re.I] *)
Variable ignore_case : bool.
Context {A : Type}.

Definition chr_eq (c d : ascii) : bool :=
  if ignore_case then Ascii.eqb (lower_char c) (lower_char d)
  else Ascii.eqb c d.

Fixpoint chr_in (d : ascii) (cs : string) : bool :=
  match cs with
  | EmptyString => false
  | String c cs' => chr_eq c d || chr_in d cs'
  end.

(** Consume one character satisfying [f]. *)
Definition step (f : ascii -> bool) (k : mstate -> option A) (st : mstate)
  : option A :=
  match rest st with
  | String d s' => if f d then k (advance d s' st) else None
  | EmptyString => None
  end.

(** The iterations of a greedy [*] over [body]: one more iteration first,
    then the continuation.  An iteration has to consume a character, so
    the length of the remaining text bounds their number. *)
Fixpoint star_iter (body : (mstate -> option A) -> mstate -> option A)
  (k : mstate -> option A) (fuel : nat) (st : mstate) {struct fuel}
  : option A :=
  match fuel with
  | O => k st
  | S fuel' =>
      match body
              (fun st' =>
                 if String.length (rest st') <? String.length (rest st)
                 then star_iter body k fuel' st' else None) st with
      | Some a => Some a
      | None => k st
      end
  end.

(** [rmatch r k st]: match [r] at [st], then continue with [k]; the first
    success in priority order. *)
Fixpoint rmatch (r : regex) (k : mstate -> option A) (st : mstate)
  {struct r} : option A :=
  match r with
  | Eps => k st
  | Chr c => step (chr_eq c) k st
  | Any => step (fun d => negb (Ascii.eqb d newline)) k st
  | Space => step is_space k st
  | OneOf cs => step (fun d => chr_in d cs) k st
  | WordB => if xorb (word_before st) (word_after st) then k st else None
  | Bol => match prev st with
           | None => k st
           | Some _ => None
           end
  | Seq r1 r2 => rmatch r1 (rmatch r2 k) st
  | Alt r1 r2 =>
      match rmatch r1 k st with
      | Some a => Some a
      | None => rmatch r2 k st
      end
  | Star r1 => star_iter (rmatch r1) k (String.length (rest st)) st
  | Group n r1 => rmatch r1 (fun st' => k (capture n st st')) st
  end.

End Matcher.

(** One attempt at a given position. *)
Definition match_here (ic : bool) (r : regex) (p : option ascii) (s : string)
  : option mstate :=
  rmatch ic r Some (MState p s []).

(** [re.search]: the first position, from the left, where the pattern
    matches. *)
Fixpoint search_from (ic : bool) (r : regex) (p : option ascii) (s : string)
  : option mstate :=
  match match_here ic r p s with
  | Some m => Some m
  | None =>
      match s with
      | EmptyString => None
      | String c s' => search_from ic r (Some c) s'
      end
  end.

Definition search (ic : bool) (r : regex) (s : string) : option mstate :=
  search_from ic r None s.

(** The truth value of [re.search(p, t)]. *)
Definition found (r : regex) (s : string) : bool :=
  match search false r s with
  | Some _ => true
  | None => false
  end.

(** [m.group(n)] *)
Fixpoint assoc_group (n : nat) (gs : list (nat * string)) : option string :=
  match gs with
  | [] => None
  | (i, s) :: gs' => if i =? n then Some s else assoc_group n gs'
  end.

Definition group (m : mstate) (n : nat) : string :=
  or_empty (assoc_group n (groups m)).

(** [re.sub(r, repl, s)] for a pattern that matches no empty text: scanning
    from the left, each match is replaced and the scan resumes after it. *)
Fixpoint sub_loop (fuel : nat) (r : regex) (repl : string)
  (p : option ascii) (s : string) : string :=
  match fuel with
  | O => s
  | S fuel' =>
      match match_here false r p s with
      | Some m =>
          if String.length (rest m) <? String.length s
          then repl +:+ sub_loop fuel' r repl (prev m) (rest m)
          else match s with
               | EmptyString => EmptyString
               | String c s' => String c (sub_loop fuel' r repl (Some c) s')
               end
      | None =>
          match s with
          | EmptyString => EmptyString
          | String c s' => String c (sub_loop fuel' r repl (Some c) s')
          end
      end
  end.

Definition sub (r : regex) (repl : string) (s : string) : string :=
  sub_loop (S (String.length s)) r repl None s.

(** *** Literal words *)

(** The character before the position once the word [w] has been read. *)
Fixpoint after_word (w : string) (p : option ascii) : option ascii :=
  match w with
  | EmptyString => p
  | String c w' => after_word w' (Some c)
  end.

Lemma rmatch_lit {A : Type} (w : string) (k : mstate -> option A)
  (st : mstate) :
  rmatch false (lit w) k st =
  match strip_prefix w (rest st) with
  | Some s' => k (MState (after_word w (prev st)) s' (groups st))
  | None => None
  end.
Proof.
  revert k st. induction w as [|c w IH]; intros k st.
  - destruct st; reflexivity.
  - cbn [lit rmatch strip_prefix after_word]. unfold step, chr_eq.
    destruct (rest st) as [|d s'] eqn:E; [reflexivity|].
    destruct (Ascii.eqb_spec c d) as [<-|N]; [|reflexivity].
    rewrite IH. reflexivity.
Qed.

Lemma strip_prefix_length (w s s' : string) :
  strip_prefix w s = Some s' ->
  String.length s = String.length w + String.length s'.
Proof.
  revert s. induction w as [|c w IH]; intros s H; simpl in *.
  - congruence.
  - destruct s as [|d s0]; [discriminate|].
    destruct (Ascii.eqb c d); [|discriminate].
    simpl. rewrite (IH _ H). reflexivity.
Qed.

Lemma strip_prefix_app (a b s : string) :
  strip_prefix (a +:+ b) s =
  match strip_prefix a s with
  | Some s' => strip_prefix b s'
  | None => None
  end.
Proof.
  revert s. induction a as [|c a IH]; intros s; simpl; [reflexivity|].
  destruct s as [|d s0]; [reflexivity|].
  destruct (Ascii.eqb c d); [apply IH|reflexivity].
Qed.

(** *** What a match consumes *)

Lemma append_cons (c : ascii) (a b : string) :
  String c a +:+ b = String c (a +:+ b).
Proof. reflexivity. Qed.

Lemma append_empty_r (a : string) : a +:+ "" = a.
Proof. induction a as [|c a IH]; [reflexivity|]. rewrite append_cons, IH. reflexivity. Qed.

Lemma append_assoc (a b c : string) : (a +:+ b) +:+ c = a +:+ (b +:+ c).
Proof.
  induction a as [|d a IH]; [reflexivity|].
  rewrite !append_cons, IH. reflexivity.
Qed.

Lemma append_length (a b : string) :
  String.length (a +:+ b) = String.length a + String.length b.
Proof.
  induction a as [|d a IH]; [reflexivity|].
  rewrite append_cons. simpl. rewrite IH. reflexivity.
Qed.

Lemma substring_prefix (a b : string) :
  substring 0 (String.length a) (a +:+ b) = a.
Proof.
  induction a as [|d a IH]; [destruct b; reflexivity|].
  rewrite append_cons. simpl. rewrite IH. reflexivity.
Qed.

(** The concatenation of a list of texts. *)
Fixpoint join (us : list string) : string :=
  match us with
  | [] => EmptyString
  | u :: us' => u +:+ join us'
  end.

(** The texts a pattern can consume, the assertions [\b] and [^] consuming
    nothing. *)
Fixpoint lang (ic : bool) (r : regex) (u : string) : Prop :=
  match r with
  | Eps | WordB | Bol => u = EmptyString
  | Chr c => exists d, u = String d EmptyString /\ chr_eq ic c d = true
  | Any => exists d, u = String d EmptyString /\ d <> newline
  | Space => exists d, u = String d EmptyString /\ is_space d = true
  | OneOf cs => exists d, u = String d EmptyString /\ chr_in ic d cs = true
  | Seq r1 r2 => exists u1 u2, u = u1 +:+ u2 /\ lang ic r1 u1 /\ lang ic r2 u2
  | Alt r1 r2 => lang ic r1 u \/ lang ic r2 u
  | Star r1 => exists us, u = join us /\ Forall (lang ic r1) us
  | Group _ r1 => lang ic r1 u
  end.

Lemma step_origin {A : Type} (f : ascii -> bool) (k : mstate -> option A)
  (st : mstate) (a : A) :
  step f k st = Some a ->
  exists d s', rest st = String d s' /\ f d = true /\
               k (advance d s' st) = Some a.
Proof.
  unfold step. destruct (rest st) as [|d s']; [discriminate|].
  destruct (f d) eqn:F; [|discriminate]. eauto.
Qed.

Section Soundness.

Variable ic : bool.
Context {A : Type}.

(** The continuation that answered, the position it was called at and the
    text consumed up to there. *)
Definition answered (r : regex) (k : mstate -> option A) (st : mstate)
  (a : A) : Prop :=
  exists st' u, k st' = Some a /\ rest st = u +:+ rest st' /\ lang ic r u.

Lemma star_iter_sound (r1 : regex) :
  (forall k st a, rmatch ic r1 k st = Some a -> answered r1 k st a) ->
  forall k fuel st a,
    star_iter (rmatch ic r1) k fuel st = Some a -> answered (Star r1) k st a.
Proof.
  intros IH k fuel. induction fuel as [|fuel IHf]; intros st a H.
  - exists st, EmptyString. split; [exact H|]. split; [reflexivity|].
    exists []. split; [reflexivity|constructor].
  - cbn [star_iter] in H.
    destruct (rmatch ic r1 _ st) as [a'|] eqn:E.
    + injection H as ->. apply IH in E as (st1 & u1 & K & R & L).
      destruct (String.length (rest st1) <? String.length (rest st));
        [|discriminate].
      apply IHf in K as (st2 & u2 & K2 & R2 & (us & -> & F)).
      exists st2, (u1 +:+ join us). split; [exact K2|].
      split; [rewrite R, R2, append_assoc; reflexivity|].
      exists (u1 :: us). split; [reflexivity|]. constructor; assumption.
    + exists st, EmptyString. split; [exact H|]. split; [reflexivity|].
      exists []. split; [reflexivity|constructor].
Qed.

Lemma rmatch_sound (r : regex) :
  forall k st a, rmatch ic r k st = Some a -> answered r k st a.
Proof.
  induction r as [|c| | |cs| | |r1 IH1 r2 IH2|r1 IH1 r2 IH2|r1 IH1|n r1 IH1];
    intros k st a H; cbn [rmatch] in H.
  - exists st, EmptyString. repeat split; assumption.
  - apply step_origin in H as (d & s' & R & F & K).
    exists (advance d s' st), (String d EmptyString).
    split; [exact K|]. split; [exact R|]. exists d. auto.
  - apply step_origin in H as (d & s' & R & F & K).
    exists (advance d s' st), (String d EmptyString).
    split; [exact K|]. split; [exact R|]. exists d. split; [reflexivity|].
    intros ->. rewrite Ascii.eqb_refl in F. discriminate F.
  - apply step_origin in H as (d & s' & R & F & K).
    exists (advance d s' st), (String d EmptyString).
    split; [exact K|]. split; [exact R|]. exists d. auto.
  - apply step_origin in H as (d & s' & R & F & K).
    exists (advance d s' st), (String d EmptyString).
    split; [exact K|]. split; [exact R|]. exists d. auto.
  - destruct (xorb _ _); [|discriminate].
    exists st, EmptyString. repeat split; assumption.
  - destruct (prev st); [discriminate|].
    exists st, EmptyString. repeat split; assumption.
  - apply IH1 in H as (st1 & u1 & K1 & R1 & L1).
    apply IH2 in K1 as (st2 & u2 & K2 & R2 & L2).
    exists st2, (u1 +:+ u2). split; [exact K2|].
    split; [rewrite R1, R2, append_assoc; reflexivity|].
    exists u1, u2. auto.
  - destruct (rmatch ic r1 k st) as [a'|] eqn:E.
    + injection H as ->. apply IH1 in E as (st1 & u1 & K1 & R1 & L1).
      exists st1, u1. split; [exact K1|]. split; [exact R1|]. left. exact L1.
    + apply IH2 in H as (st1 & u1 & K1 & R1 & L1).
      exists st1, u1. split; [exact K1|]. split; [exact R1|]. right. exact L1.
  - exact (star_iter_sound r1 IH1 k _ st a H).
  - apply IH1 in H as (st1 & u1 & K1 & R1 & L1).
    exists (capture n st st1), u1. split; [exact K1|]. split; [exact R1|].
    exact L1.
Qed.

End Soundness.

(** [re.search] finds its match in a tail of the text. *)
Lemma search_from_origin (ic : bool) (r : regex) (s : string) :
  forall p m, search_from ic r p s = Some m ->
  exists before p' tail, s = before +:+ tail /\ match_here ic r p' tail = Some m.
Proof.
  induction s as [|c s IH]; intros p m H; cbn [search_from] in H.
  - destruct (match_here ic r p "") eqn:E; [|discriminate].
    injection H as ->. exists "", p, "". auto.
  - destruct (match_here ic r p (String c s)) eqn:E.
    + injection H as ->. exists "", p, (String c s). auto.
    + apply IH in H as (before & p' & tail & -> & M).
      exists (String c before), p', tail. auto.
Qed.

(** *** The rest of a line *)

Fixpoint first_line (s : string) : string :=
  match s with
  | EmptyString => EmptyString
  | String c s' =>
      if Ascii.eqb c newline then EmptyString else String c (first_line s')
  end.

Fixpoint rest_lines (s : string) : string :=
  match s with
  | EmptyString => EmptyString
  | String c s' => if Ascii.eqb c newline then s else rest_lines s'
  end.

Lemma line_split (s : string) : s = first_line s +:+ rest_lines s.
Proof.
  induction s as [|c s IH]; [reflexivity|]. simpl.
  destruct (Ascii.eqb c newline); [reflexivity|].
  rewrite append_cons, <- IH. reflexivity.
Qed.

Lemma first_line_of_split (s : string) :
  first_line (first_line s +:+ rest_lines s) = first_line s.
Proof. rewrite <- line_split. reflexivity. Qed.

(** The position at the end of the line. *)
Definition end_of_line (st : mstate) : mstate :=
  MState (after_word (first_line (rest st)) (prev st))
    (rest_lines (rest st)) (groups st).

Lemma star_any_greedy {A : Type} (ic : bool) (k : mstate -> option A) :
  (forall st, k st <> None) ->
  forall fuel st, String.length (rest st) <= fuel ->
    star_iter (rmatch ic Any) k fuel st = k (end_of_line st).
Proof.
  intros T fuel. induction fuel as [|fuel IH]; intros st L.
  - destruct st as [p [|c s] g]; simpl in L; [reflexivity|lia].
  - cbn [star_iter rmatch]. unfold step.
    destruct st as [p [|c s] g]; cbn [rest]; [reflexivity|].
    unfold end_of_line. cbn [rest prev groups first_line rest_lines].
    destruct (Ascii.eqb c newline); cbn [negb]; [reflexivity|].
    cbn [advance rest groups after_word].
    replace (String.length s <? String.length (String c s)) with true
      by (symmetry; apply Nat.ltb_lt; simpl; lia).
    rewrite IH by (simpl in L; simpl; lia).
    unfold end_of_line. cbn [rest prev groups].
    destruct (k _) eqn:E; [reflexivity|]. exfalso. exact (T _ E).
Qed.

Lemma rmatch_star_any {A : Type} (ic : bool) (k : mstate -> option A)
  (st : mstate) :
  (forall st', k st' <> None) ->
  rmatch ic (Star Any) k st = k (end_of_line st).
Proof.
  intros T.
  change (star_iter (rmatch ic Any) k (String.length (rest st)) st
          = k (end_of_line st)).
  apply star_any_greedy; [exact T|lia].
Qed.

(** The group [(.+)] at the end of a pattern takes the rest of the line,
    which must not be empty. *)
Lemma trailing_group (ic : bool) (n : nat) (st m : mstate) :
  rmatch ic (Group n (Plus Any)) Some st = Some m ->
  group m n = first_line (rest st) /\
  rest m = rest_lines (rest st) /\
  first_line (rest st) <> EmptyString.
Proof.
  change (rmatch ic (Group n (Plus Any)) Some st)
    with (step (fun d => negb (Ascii.eqb d newline))
            (rmatch ic (Star Any) (fun st' => Some (capture n st st'))) st).
  unfold step.
  destruct st as [p [|c s] g]; cbn [rest]; [discriminate|].
  destruct (Ascii.eqb c newline) eqn:N; cbn [negb]; [discriminate|].
  rewrite rmatch_star_any by discriminate.
  intros H. injection H as <-.
  unfold group, capture, consumed, end_of_line.
  cbn [advance rest prev groups assoc_group first_line rest_lines].
  rewrite N, Nat.eqb_refl. cbn [or_empty].
  split; [|split; [reflexivity|discriminate]].
  pose proof (line_split s) as S.
  replace (String.length (String c s) - String.length (rest_lines s))
    with (String.length (String c (first_line s))).
  - rewrite S at 2. rewrite <- append_cons. apply substring_prefix.
  - rewrite S at 2. simpl. rewrite append_length. lia.
Qed.

(** A pattern that is found consumes a part of the text. *)
Lemma found_sound (r : regex) (t : string) :
  found r t = true ->
  exists before u after, t = before +:+ u +:+ after /\ lang false r u.
Proof.
  unfold found, search. destruct (search_from false r None t) as [m|] eqn:E;
    [|discriminate].
  intros _. apply search_from_origin in E as (before & p & tail & -> & M).
  apply rmatch_sound in M as (st' & u & _ & R & L).
  exists before, u, (rest st'). split; [|exact L].
  cbn [rest] in R. rewrite R. reflexivity.
Qed.

End Regex.

(** ** Status classifier *)

Module Status.
Import Text Regex.

Inductive status : Type :=
| Offer
| Interview
| Rejected
| Submitted
| Assessment
| Unknown.

(** The label the script returns. *)
Definition label (s : status) : string :=
  match s with
  | Offer => "Offer"
  | Interview => "Interview"
  | Rejected => "Rejected"
  | Submitted => "Submitted"
  | Assessment => "Assessment"
  | Unknown => "Unknown"
  end.

(** [\bw\b] *)
Definition word (w : string) : regex := Seq WordB (Seq (lit w) WordB).

(** [STATUS_PATTERNS], in the insertion order of the dictionary. *)
Definition STATUS_PATTERNS : list (status * list regex) :=
  [ (Offer,
      [ word "offer";
        Seq (lit "congratulations") (Seq (Star Any) (lit "offer"));
        word "offer letter" ]);
    (Interview,
      [ word "interview";
        Seq WordB (Seq (lit "schedule")
                     (Seq (Star Any) (Seq (lit "interview") WordB)));
        word "phone screen";
        word "technical interview" ]);
    (Rejected,
      [ word "not selected";
        word "we regret";
        word "unfortunately";
        word "rejected" ]);
    (Submitted,
      [ word "application received";
        word "thank you for applying";
        word "application submitted" ]);
    (Assessment,
      [ Seq WordB (Seq (lit "assess")
                     (Seq (Group 1 (Alt (lit "ment") (lit "ment link")))
                        WordB));
        word "code challenge";
        word "online test" ]) ].

(** The inner loop: [for p in patterns: if re.search(p, t): return status]. *)
Fixpoint scan_patterns (ps : list regex) (t : string) : bool :=
  match ps with
  | [] => false
  | p :: ps' => if found p t then true else scan_patterns ps' t
  end.

(** The outer loop over [STATUS_PATTERNS.items()]. *)
Fixpoint scan_items (items : list (status * list regex)) (t : string)
  : status :=
  match items with
  | [] => Unknown
  | (st, ps) :: items' =>
      if scan_patterns ps t then st else scan_items items' t
  end.

Definition detect_status (text : string) : status :=
  if negb (truthy text) then Unknown
  else
    let t := lower text in
    scan_items STATUS_PATTERNS t.

(** The classifier as the specification words it: the categories in their
    priority order, a category being hit when one of its patterns is found
    in the lower-cased text. *)
Definition priority : list status :=
  [Offer; Interview; Rejected; Submitted; Assessment].

Definition status_eqb (a b : status) : bool :=
  match a, b with
  | Offer, Offer | Interview, Interview | Rejected, Rejected
  | Submitted, Submitted | Assessment, Assessment | Unknown, Unknown => true
  | _, _ => false
  end.

Fixpoint patterns_in (items : list (status * list regex)) (c : status)
  : list regex :=
  match items with
  | [] => []
  | (c', ps) :: items' =>
      if status_eqb c' c then ps else patterns_in items' c
  end.

Definition patterns_of (c : status) : list regex :=
  patterns_in STATUS_PATTERNS c.

Definition category_matches (c : status) (t : string) : bool :=
  existsb (fun p => found p t) (patterns_of c).

Definition classify_spec (text : string) : status :=
  match List.find (fun c => category_matches c (lower text)) priority with
  | Some c => c
  | None => Unknown
  end.

Lemma scan_patterns_existsb (ps : list regex) (t : string) :
  scan_patterns ps t = existsb (fun p => found p t) ps.
Proof.
  induction ps as [|p ps IH]; simpl; [reflexivity|].
  rewrite IH. destruct (found p t); reflexivity.
Qed.

Lemma scan_items_priority (t : string) :
  scan_items STATUS_PATTERNS t =
  match List.find (fun c => category_matches c t) priority with
  | Some c => c
  | None => Unknown
  end.
Proof.
  unfold STATUS_PATTERNS, priority, category_matches, patterns_of.
  cbn [scan_items List.find patterns_in STATUS_PATTERNS status_eqb].
  rewrite !scan_patterns_existsb.
  repeat match goal with
         | |- context [if existsb ?f ?l then _ else _] =>
             destruct (existsb f l); try reflexivity
         end.
Qed.

(** No pattern of the table is found in the empty text, so the early return
    on an empty text agrees with the scan. *)
Lemma scan_items_empty : scan_items STATUS_PATTERNS "" = Unknown.
Proof. vm_compute. reflexivity. Qed.

Lemma lower_truthy (s : string) : truthy (lower s) = truthy s.
Proof. destruct s; reflexivity. Qed.

Lemma detect_status_scan (text : string) :
  detect_status text = scan_items STATUS_PATTERNS (lower text).
Proof.
  unfold detect_status. destruct text as [|c s]; simpl negb; cbv iota.
  - symmetry. exact scan_items_empty.
  - reflexivity.
Qed.

(** C1. For every text, [detect_status] lower-cases it and returns the first
    category, in the order Offer, Interview, Rejected, Submitted,
    Assessment, one of whose patterns is found, and Unknown when no pattern
    of any category is found; a text in which both an Offer pattern and an
    Interview pattern are found is classified Offer. *)
Theorem detect_status_priority (text : string) :
  detect_status text = classify_spec text /\
  (category_matches Offer (lower text) = true ->
   category_matches Interview (lower text) = true ->
   detect_status text = Offer).
Proof.
  assert (E : detect_status text = classify_spec text).
  { rewrite detect_status_scan. unfold classify_spec.
    apply scan_items_priority. }
  split; [exact E|].
  intros HO _. rewrite E. unfold classify_spec, priority.
  cbn [List.find]. rewrite HO. reflexivity.
Qed.

Lemma detect_status_priority_witness :
  category_matches Offer
    (lower "We are pleased to make you an Offer after your Interview") = true /\
  category_matches Interview
    (lower "We are pleased to make you an Offer after your Interview") = true /\
  detect_status "We are pleased to make you an Offer after your Interview"
  = Offer.
Proof.
  split; [vm_compute; reflexivity|].
  split; [vm_compute; reflexivity|].
  apply (proj2 (detect_status_priority
    "We are pleased to make you an Offer after your Interview"));
    vm_compute; reflexivity.
Defined.

End Status.

(** ** URL-safe base64, as [base64.urlsafe_b64decode] decodes it *)

Module Base64.

(** [data.encode("ASCII")]: the codes of the characters; a character
    outside ASCII raises [UnicodeEncodeError]. *)
Fixpoint encode_ascii (s : string) : result (list Z) :=
  match s with
  | EmptyString => Ok []
  | String c s' =>
      if Text.code c <? 128
      then bs <-- encode_ascii s' ;; Ok (Z.of_nat (Text.code c) :: bs)
      else Raise UnicodeEncodeError
  end.

(** The translation of the URL-safe alphabet: [-] to [+] and [_] to [/]. *)
Definition urlsafe_translate (b : Z) : Z :=
  if (b =? 45)%Z then 43%Z else if (b =? 95)%Z then 47%Z else b.

(** The value of a character of the alphabet, [None] for any other byte. *)
Definition b64_value (b : Z) : option Z :=
  if ((65 <=? b) && (b <=? 90))%Z then Some (b - 65)%Z
  else if ((97 <=? b) && (b <=? 122))%Z then Some (b - 71)%Z
  else if ((48 <=? b) && (b <=? 57))%Z then Some (b + 4)%Z
  else if (b =? 43)%Z then Some 62%Z
  else if (b =? 47)%Z then Some 63%Z
  else None.

Definition PAD : Z := 61%Z.

(** A stored [unsigned char]. *)
Definition byte_of (z : Z) : Z := Z.land z 255.

(** The decoding loop of [binascii.a2b_base64] without strict mode:
    [quad_pos] counts the characters of the current group of four,
    [leftchar] holds the bits not yet written, [pads] the padding seen;
    bytes outside the alphabet are skipped, a complete padding ends the
    input, and characters left over at the end are an error. *)
Fixpoint a2b_loop (data : list Z) (quad_pos : nat) (leftchar : Z)
  (pads : nat) (out : list Z) : result (list Z) :=
  match data with
  | [] => if quad_pos =? 0 then Ok (rev out) else Raise BinasciiError
  | this_ch :: data' =>
      if (this_ch =? PAD)%Z then
        if (2 <=? quad_pos) && (4 <=? quad_pos + S pads)
        then Ok (rev out)
        else a2b_loop data' quad_pos leftchar
               (if 2 <=? quad_pos then S pads else pads) out
      else
        match b64_value this_ch with
        | None => a2b_loop data' quad_pos leftchar pads out
        | Some v =>
            match quad_pos with
            | 0 => a2b_loop data' 1 v 0 out
            | 1 => a2b_loop data' 2 (Z.land v 15) 0
                     (byte_of (Z.lor (Z.shiftl leftchar 2) (Z.shiftr v 4))
                      :: out)
            | 2 => a2b_loop data' 3 (Z.land v 3) 0
                     (byte_of (Z.lor (Z.shiftl leftchar 4) (Z.shiftr v 2))
                      :: out)
            | _ => a2b_loop data' 0 0%Z 0
                     (byte_of (Z.lor (Z.shiftl leftchar 6) v) :: out)
            end
        end
  end.

Definition a2b_base64 (data : list Z) : result (list Z) :=
  a2b_loop data 0 0%Z 0 [].

(** [base64.urlsafe_b64decode(data.encode("ASCII"))] *)
Definition urlsafe_b64decode (data : string) : result (list Z) :=
  bs <-- encode_ascii data ;;
  a2b_base64 (map urlsafe_translate bs).

(** The characters of the URL-safe alphabet. *)
Definition urlsafe_char (c : ascii) : bool :=
  Text.is_upper c || Text.is_lower c || Text.is_digit c
  || (Text.code c =? 45) || (Text.code c =? 95).

Definition is_data_byte (b : Z) : Prop :=
  b <> PAD /\ exists v, b64_value b = Some v.

Lemma urlsafe_char_data_byte (c : ascii) :
  urlsafe_char c = true ->
  (Text.code c <? 128) = true /\
  is_data_byte (urlsafe_translate (Z.of_nat (Text.code c))).
Proof.
  destruct c as [[] [] [] [] [] [] [] []]; vm_compute; intros H;
    try discriminate H;
    (split; [reflexivity|split; [discriminate|eexists; reflexivity]]).
Qed.

Lemma encode_ascii_urlsafe (s : string) :
  Text.all_chars urlsafe_char s = true ->
  exists bs, encode_ascii s = Ok bs /\
             length bs = String.length s /\
             Forall is_data_byte (map urlsafe_translate bs).
Proof.
  induction s as [|c s IH]; simpl; intros H.
  - exists []. repeat split. constructor.
  - apply andb_prop in H as [Hc Hs].
    destruct (urlsafe_char_data_byte c Hc) as [Ha Hd].
    destruct (IH Hs) as (bs & E & L & F).
    rewrite Ha, E. simpl. eexists. split; [reflexivity|].
    simpl. split; [congruence|]. constructor; assumption.
Qed.

(** On data bytes only, the loop succeeds exactly when the characters fill
    whole groups of four. *)
Lemma a2b_loop_data_bytes (data : list Z) :
  Forall is_data_byte data ->
  forall q left pads out, q < 4 ->
    (q + length data) mod 4 = 0 ->
    exists bs, a2b_loop data q left pads out = Ok bs.
Proof.
  induction 1 as [|b data [Hp [v Hv]] _ IH]; intros q left pads out Hq Hm.
  - cbn [length] in Hm. rewrite Nat.add_0_r in Hm.
    rewrite (Nat.mod_small q 4 Hq) in Hm. subst q. simpl. eauto.
  - cbn [a2b_loop].
    destruct (Z.eqb_spec b PAD) as [->|_]; [contradiction|].
    rewrite Hv. cbn [length] in Hm.
    destruct q as [|[|[|[|q]]]]; try lia.
    + apply IH; [lia|]. replace (1 + length data) with (0 + S (length data)) by lia. exact Hm.
    + apply IH; [lia|]. replace (2 + length data) with (1 + S (length data)) by lia. exact Hm.
    + apply IH; [lia|]. replace (3 + length data) with (2 + S (length data)) by lia. exact Hm.
    + apply IH; [lia|].
      replace (3 + S (length data)) with (length data + 1 * 4) in Hm by lia.
      rewrite Nat.Div0.mod_add in Hm. exact Hm.
Qed.

(** A text over the URL-safe alphabet whose length is a multiple of four
    decodes without error. *)
Lemma urlsafe_b64decode_ok (d : string) :
  Text.all_chars urlsafe_char d = true ->
  String.length d mod 4 = 0 ->
  exists bs, urlsafe_b64decode d = Ok bs.
Proof.
  intros Ha Hl. destruct (encode_ascii_urlsafe d Ha) as (bs & E & L & F).
  unfold urlsafe_b64decode, a2b_base64. rewrite E. simpl.
  apply a2b_loop_data_bytes; [exact F|lia|].
  rewrite length_map, L. exact Hl.
Qed.

(** A single data character can never be decoded. *)
Lemma urlsafe_b64decode_truncated :
  urlsafe_b64decode "A" = Raise BinasciiError.
Proof. reflexivity. Qed.

(** Canonical URL-safe base64: characters of the alphabet in groups of
    four, the last group completed by [=] padding when it has two or three
    characters.  [q] is the number of characters of the current group. *)
Fixpoint canonical_from (q : nat) (d : string) : bool :=
  match d with
  | EmptyString => q =? 0
  | String c d' =>
      if urlsafe_char c
      then canonical_from (match q with 3 => 0 | _ => S q end) d'
      else match q with
           | 2 => String.eqb d "=="
           | 3 => String.eqb d "="
           | _ => false
           end
  end.

Definition canonical (d : string) : bool := canonical_from 0 d.



(** The decoder without strict mode skips what is outside the alphabet:
    a text that is not canonical may still decode. *)
Example skipped_character_decodes :
  canonical "SGVs*bG8=" = false /\
  urlsafe_b64decode "SGVs*bG8=" = Ok [72; 101; 108; 108; 111]%Z.
Proof. split; reflexivity. Qed.

(** Without padding, data characters that do not fill groups of four are
    rejected. *)
Lemma a2b_loop_incomplete (data : list Z) :
  Forall is_data_byte data ->
  forall q left pads out, q < 4 ->
    (q + length data) mod 4 <> 0 ->
    a2b_loop data q left pads out = Raise BinasciiError.
Proof.
  induction 1 as [|b data [Hp [v Hv]] _ IH]; intros q left pads out Hq Hm.
  - cbn [length] in Hm. rewrite Nat.add_0_r in Hm.
    rewrite (Nat.mod_small q 4 Hq) in Hm.
    destruct q; [contradiction|reflexivity].
  - cbn [a2b_loop].
    destruct (Z.eqb_spec b PAD) as [->|_]; [contradiction|].
    rewrite Hv. cbn [length] in Hm.
    destruct q as [|[|[|[|q]]]]; try lia.
    + apply IH; [lia|]. replace (1 + length data) with (0 + S (length data)) by lia. exact Hm.
    + apply IH; [lia|]. replace (2 + length data) with (1 + S (length data)) by lia. exact Hm.
    + apply IH; [lia|]. replace (3 + length data) with (2 + S (length data)) by lia. exact Hm.
    + apply IH; [lia|].
      replace (3 + S (length data)) with (length data + 1 * 4) in Hm by lia.
      rewrite Nat.Div0.mod_add in Hm. exact Hm.
Qed.

Lemma urlsafe_b64decode_incomplete (d : string) :
  Text.all_chars urlsafe_char d = true ->
  String.length d mod 4 <> 0 ->
  urlsafe_b64decode d = Raise BinasciiError.
Proof.
  intros Ha Hl. destruct (encode_ascii_urlsafe d Ha) as (bs & E & L & F).
  unfold urlsafe_b64decode, a2b_base64. rewrite E. simpl.
  apply a2b_loop_incomplete; [exact F|lia|].
  rewrite length_map, L. exact Hl.
Qed.

(** A character outside ASCII is rejected before any decoding. *)
Lemma urlsafe_b64decode_non_ascii (d : string) :
  Text.all_chars (fun c => Text.code c <? 128) d = false ->
  urlsafe_b64decode d = Raise UnicodeEncodeError.
Proof.
  intros H. unfold urlsafe_b64decode.
  assert (E : encode_ascii d = Raise UnicodeEncodeError).
  { induction d as [|c d IH]; simpl in *; [discriminate H|].
    destruct (Text.code c <? 128); [|reflexivity].
    simpl in H. rewrite (IH H). reflexivity. }
  rewrite E. reflexivity.
Qed.




End Base64.

(** ** Text extractor *)

Module Extract.
Import Text.

(** A body part of a Gmail message: [mimeType] (the empty string when the
    key is missing), [body.data] when present, and the child [parts] (the
    empty list when the key is missing or null). *)
#[warnings="-register-all"]
Inductive payload : Type :=
| Payload (mimeType : string) (data : option string) (parts : list payload).

Definition mimeType (p : payload) : string :=
  match p with Payload m _ _ => m end.
Definition body_data (p : payload) : option string :=
  match p with Payload _ d _ => d end.
Definition parts (p : payload) : list payload :=
  match p with Payload _ _ ps => ps end.

(** The truth value of an optional text: [None] and [""] are false. *)
Definition truthy_opt (o : option string) : bool :=
  match o with
  | Some s => truthy s
  | None => false
  end.

(** The loop over the child parts:
    [for part in parts: text = f(part); if text: return text], then
    [return None]. *)
Section ForParts.

Variable f : payload -> result (option string).

Fixpoint for_parts (ps : list payload) : result (option string) :=
  match ps with
  | [] => Ok None
  | part :: ps' =>
      text <-- f part ;;
      if truthy_opt text then Ok text else for_parts ps'
  end.

End ForParts.

(** Induction on a body part, with the property known of its children. *)
Section PayloadInduction.

Variable P : payload -> Prop.
Hypothesis step : forall m d ps, Forall P ps -> P (Payload m d ps).


End PayloadInduction.

(** [multipart/alternative] with the HTML part [<p>Hi</p>] first and the
    plain-text part "Hello" second. *)
Definition mail_html_first : payload :=
  Payload "multipart/alternative" None
    [ Payload "text/html" (Some "PHA-SGk8L3A-") [];
      Payload "text/plain" (Some "SGVsbG8=") [] ].

Section Extractor.

(** [bytes.decode("utf-8", errors="replace")]: total, an invalid byte
    sequence becomes a replacement character. *)
Variable utf8_decode_replace : list Z -> string.

(** [BeautifulSoup(html, "html.parser").get_text(separator="\n")]; the
    parser rejects some markup with an error. *)
Variable html_get_text : string -> result string.

(** [base64.urlsafe_b64decode(data.encode("ASCII")).decode("utf-8",
    errors="replace")] *)
Definition decode_data (data : string) : result string :=
  bs <-- Base64.urlsafe_b64decode data ;;
  Ok (utf8_decode_replace bs).

(** The two tests on the part itself; [None] when the test falls through
    to the code after it. *)
Definition plain_branch (mime : string) (data : option string)
  : option (result (option string)) :=
  if String.eqb mime "text/plain" then
    match data with
    | Some d =>
        if truthy d
        then Some (text <-- decode_data d ;; Ok (Some text))
        else None
    | None => None
    end
  else None.

Definition html_branch (mime : string) (data : option string)
  : option (result (option string)) :=
  if String.eqb mime "text/html" then
    match data with
    | Some d =>
        if truthy d
        then Some (html <-- decode_data d ;;
                   text <-- html_get_text html ;;
                   Ok (Some text))
        else None
    | None => None
    end
  else None.

Fixpoint extract_text_from_payload (p : payload) : result (option string) :=
  match p with
  | Payload mime data ps =>
      match plain_branch mime data with
      | Some r => r
      | None =>
          match html_branch mime data with
          | Some r => r
          | None =>
              for_parts extract_text_from_payload ps
          end
      end
  end.

(** [body = extract_text_from_payload(payload) or raw.get("snippet", "")] *)
Definition message_body (p : payload) (snippet : string) : result string :=
  text <-- extract_text_from_payload p ;;
  Ok (if truthy_opt text then or_empty text else snippet).

(** *** The extractor read as a case analysis on one part *)

(** What the part itself offers. *)
Inductive level : Type :=
| PlainText (d : string)
| Html (d : string)
| Neither.

Definition current_level (p : payload) : level :=
  match body_data p with
  | Some d =>
      if truthy d then
        if String.eqb (mimeType p) "text/plain" then PlainText d
        else if String.eqb (mimeType p) "text/html" then Html d
        else Neither
      else Neither
  | None => Neither
  end.

(** The first non-empty result of the children, in their order; an error
    met on the way is the result. *)
Fixpoint first_nonempty (rs : list (result (option string)))
  : result (option string) :=
  match rs with
  | [] => Ok None
  | Raise e :: _ => Raise e
  | Ok text :: rs' => if truthy_opt text then Ok text else first_nonempty rs'
  end.

Definition extract_spec (p : payload) : result (option string) :=
  match current_level p with
  | PlainText d => text <-- decode_data d ;; Ok (Some text)
  | Html d =>
      html <-- decode_data d ;; text <-- html_get_text html ;; Ok (Some text)
  | Neither => first_nonempty (map extract_text_from_payload (parts p))
  end.





Lemma for_parts_first_nonempty (ps : list payload) :
  for_parts extract_text_from_payload ps =
  first_nonempty (map extract_text_from_payload ps).
Proof.
  induction ps as [|part ps IH]; simpl; [reflexivity|].
  destruct (extract_text_from_payload part) as [text|e]; simpl;
    [|reflexivity].
  destruct (truthy_opt text); [reflexivity|exact IH].
Qed.

Lemma extract_unfold (m : string) (d : option string) (ps : list payload) :
  extract_text_from_payload (Payload m d ps) =
  match plain_branch m d with
  | Some r => r
  | None =>
      match html_branch m d with
      | Some r => r
      | None => for_parts extract_text_from_payload ps
      end
  end.
Proof. reflexivity. Qed.

Lemma extract_refines_spec (p : payload) :
  extract_text_from_payload p = extract_spec p.
Proof.
  destruct p as [m d ps]. rewrite extract_unfold.
  unfold extract_spec, current_level, plain_branch, html_branch.
  cbn [mimeType body_data parts].
  rewrite for_parts_first_nonempty.
  destruct d as [d|]; [|destruct (String.eqb m "text/plain");
                         destruct (String.eqb m "text/html"); reflexivity].
  destruct (truthy d);
    destruct (String.eqb m "text/plain") eqn:Ep;
    destruct (String.eqb m "text/html") eqn:Eh; try reflexivity.
Qed.

(** The order of the tests, part by part: the extractor returns the decoded
    text of the part itself when it is a plain-text part with a payload;
    otherwise the text of its markup when it is an HTML part with a
    payload; otherwise the first non-empty result of its children, in their
    order, and an absent result when no child yields text; and when the
    extractor yields no text the caller takes the server's snippet as the
    body.  The tests are made on one part at a time: among the children of
    one part nothing puts a plain-text part before an HTML part. *)
Lemma extract_plain_then_html_then_parts (p : payload) (snippet : string) :
  extract_text_from_payload p =
    match current_level p with
    | PlainText d => text <-- decode_data d ;; Ok (Some text)
    | Html d =>
        html <-- decode_data d ;; text <-- html_get_text html ;; Ok (Some text)
    | Neither => first_nonempty (map extract_text_from_payload (parts p))
    end /\
  (forall text, extract_text_from_payload p = Ok text ->
     truthy_opt text = false -> message_body p snippet = Ok snippet).
Proof.
  split; [exact (extract_refines_spec p)|].
  intros text E F. unfold message_body. rewrite E. simpl. rewrite F.
  reflexivity.
Qed.








(** C3. The message [mail_html_first] has an HTML part and a plain-text
    part as the children of one part, the HTML part first.  The plain-text
    part has a text of its own, yet the extractor returns the text of the
    HTML part: the children are tried in their order, and nothing puts a
    plain-text part before an HTML part of the same level. *)
Theorem extract_uses_html_before_plain (text : string) :
  html_get_text (utf8_decode_replace [60; 112; 62; 72; 105; 60; 47; 112; 62]%Z)
  = Ok text ->
  truthy text = true ->
  extract_text_from_payload (Payload "text/plain" (Some "SGVsbG8=") [])
  = Ok (Some (utf8_decode_replace [72; 101; 108; 108; 111]%Z)) /\
  In (Payload "text/plain" (Some "SGVsbG8=") []) (parts mail_html_first) /\
  extract_text_from_payload mail_html_first = Ok (Some text).
Proof.
  intros H T.
  split; [reflexivity|].
  split; [right; left; reflexivity|].
  unfold mail_html_first. rewrite extract_unfold.
  change (plain_branch "multipart/alternative" None) with
    (@None (result (option string))).
  change (html_branch "multipart/alternative" None) with
    (@None (result (option string))).
  cbn [for_parts]. rewrite extract_unfold.
  change (plain_branch "text/html" (Some "PHA-SGk8L3A-")) with
    (@None (result (option string))).
  assert (E : html_branch "text/html" (Some "PHA-SGk8L3A-")
              = Some (text0 <-- html_get_text
                                  (utf8_decode_replace
                                     [60; 112; 62; 72; 105; 60; 47; 112; 62]%Z) ;;
                      Ok (Some text0))) by reflexivity.
  rewrite E, H. simpl. rewrite T. reflexivity.
Qed.

End Extractor.

(** *** Instances for the examples

    Simple instances of the two library functions, enough for ASCII
    payloads with flat markup: a byte below 128 is its character and any
    other byte is replaced by [?]; the text nodes between tags are joined
    by newlines. *)
Definition utf8_sample (bs : list Z) : string :=
  fold_right
    (fun b acc =>
       String (if (b <? 128)%Z then ascii_of_nat (Z.to_nat b) else "?"%char)
         acc)
    EmptyString bs.

Definition join_lines (nodes : list string) : string :=
  match nodes with
  | [] => EmptyString
  | n :: ns =>
      fold_left (fun acc x => acc +:+ String Regex.newline x) ns n
  end.

(** The text nodes of [html]; [cur] is the node read so far, reversed. *)
Fixpoint text_nodes (html : string) (in_tag : bool) (cur : string)
  : list string :=
  let flush := match cur with
               | EmptyString => []
               | _ => [String.rev cur]
               end in
  match html with
  | EmptyString => flush
  | String c html' =>
      if in_tag then
        text_nodes html' (negb (Ascii.eqb c ">")) EmptyString
      else if Ascii.eqb c "<" then flush ++ text_nodes html' true EmptyString
      else text_nodes html' false (String c cur)
  end.

Definition get_text_sample (html : string) : result string :=
  Ok (join_lines (text_nodes html false EmptyString)).

Definition extract_sample : payload -> result (option string) :=
  extract_text_from_payload utf8_sample get_text_sample.

(** [multipart/alternative] with a plain-text part "Hello" and an HTML
    part [<p>Hello</p><p>World</p>]. *)
Definition mail_alternative : payload :=
  Payload "multipart/alternative" None
    [ Payload "text/plain" (Some "SGVsbG8=") [];
      Payload "text/html" (Some "PHA-SGVsbG88L3A-PHA-V29ybGQ8L3A-") [] ].

(** Only an HTML part. *)
Definition mail_html_only : payload :=
  Payload "multipart/mixed" None
    [ Payload "text/html" (Some "PHA-SGVsbG88L3A-PHA-V29ybGQ8L3A-") [] ].

(** No part with a text: an attachment and an empty plain-text part. *)
Definition mail_no_text : payload :=
  Payload "multipart/mixed" None
    [ Payload "text/plain" None [];
      Payload "image/png" (Some "iVBORw0KGgo=") [] ].

Example extract_alternative :
  extract_sample mail_alternative = Ok (Some "Hello").
Proof. vm_compute. reflexivity. Qed.

Example extract_html_only :
  extract_sample mail_html_only
  = Ok (Some ("Hello" +:+ String Regex.newline "World")).
Proof. vm_compute. reflexivity. Qed.

Example extract_no_text : extract_sample mail_no_text = Ok None.
Proof. vm_compute. reflexivity. Qed.

(** The children are taken in their order: an HTML part that comes first
    is used although a plain-text part follows it. *)
Example extract_html_before_plain :
  extract_sample mail_html_first = Ok (Some "Hi").
Proof. vm_compute. reflexivity. Qed.

(** A plain-text part whose payload decodes to nothing yields the empty
    text, which the callers treat like an absent result. *)
Example extract_empty_text :
  extract_sample (Payload "text/plain" (Some "====") []) = Ok (Some "").
Proof. vm_compute. reflexivity. Qed.

Lemma extract_plain_then_html_then_parts_witness :
  extract_sample mail_no_text = Ok None /\
  truthy_opt None = false /\
  message_body utf8_sample get_text_sample mail_no_text "Your application"
  = Ok "Your application".
Proof.
  split; [vm_compute; reflexivity|].
  split; [reflexivity|].
  apply (proj2 (extract_plain_then_html_then_parts utf8_sample
                  get_text_sample mail_no_text "Your application") None).
  - vm_compute. reflexivity.
  - reflexivity.
Defined.


Lemma extract_uses_html_before_plain_witness :
  get_text_sample (utf8_sample [60; 112; 62; 72; 105; 60; 47; 112; 62]%Z)
  = Ok "Hi" /\
  truthy "Hi" = true /\
  extract_sample (Payload "text/plain" (Some "SGVsbG8=") [])
  = Ok (Some "Hello") /\
  extract_sample mail_html_first = Ok (Some "Hi").
Proof.
  assert (H : get_text_sample
                (utf8_sample [60; 112; 62; 72; 105; 60; 47; 112; 62]%Z)
              = Ok "Hi") by reflexivity.
  assert (T : truthy "Hi" = true) by reflexivity.
  split; [exact H|]. split; [exact T|].
  destruct (extract_uses_html_before_plain utf8_sample get_text_sample
              "Hi" H T) as (P & _ & R).
  split; [exact P|exact R].
Defined.


(** The same holds whatever the charset decoder and the markup stripper
    are, and likewise for a payload with a character outside ASCII. *)
Lemma extract_raises_whatever_the_codec (u : list Z -> string)
  (h : string -> result string) :
  extract_text_from_payload u h (Payload "text/html" (Some "abcde") [])
  = Raise BinasciiError /\
  extract_text_from_payload u h
    (Payload "text/plain" (Some (String (ascii_of_nat 233) "")) [])
  = Raise UnicodeEncodeError.
Proof. split; reflexivity. Qed.

End Extract.

(** ** Company guesser *)

Module Company.
Import Text Regex.

(** [^(mail|no-reply|noreply|jobs|careers)\.] *)
Definition SUBDOMAIN : regex :=
  Seq Bol
    (Seq (Group 1
            (Alt (lit "mail")
               (Alt (lit "no-reply")
                  (Alt (lit "noreply")
                     (Alt (lit "jobs") (lit "careers"))))))
       (Chr ".")).

Section Guesser.

(** [email.utils.parseaddr]: the display name and the address of a header
    value, each empty when it is missing. *)
Variable parseaddr : string -> string * string.

Definition guess_company_from_from (header_from : option string) : string :=
  let (name, email) := parseaddr (or_empty header_from) in
  if truthy name && truthy (strip name) then strip name
  else if truthy email && mem_char "@" email then
    let domain := lower (last_item (split_on "@" email)) in
    let domain := sub SUBDOMAIN "" domain in
    let name_part := first_item (split_on "." domain) in
    capitalize name_part
  else "".

End Guesser.

(** *** The guess as the specification words it *)

(** The generic leading labels, with their dot. *)
Definition generic_labels : list string :=
  ["mail."; "no-reply."; "noreply."; "jobs."; "careers."].

(** The domain without the first of the labels it starts with; a label is
    removed once. *)
Fixpoint strip_generic_label (labels : list string) (domain : string)
  : string :=
  match labels with
  | [] => domain
  | l :: labels' =>
      match strip_prefix l domain with
      | Some d => d
      | None => strip_generic_label labels' domain
      end
  end.

(** The text after the last [@]. *)
Definition domain_of (email : string) : string :=
  last_item (split_on "@" email).

(** The text before the first dot. *)
Definition first_label (domain : string) : string :=
  first_item (split_on "." domain).

Definition company_spec (name email : string) : string :=
  if truthy (strip name) then strip name
  else if mem_char "@" email
       then capitalize
              (first_label
                 (strip_generic_label generic_labels
                    (lower (domain_of email))))
       else "".

(** *** The substitution removes one leading generic label *)

Lemma match_here_after_start (c : ascii) (s : string) :
  match_here false SUBDOMAIN (Some c) s = None.
Proof. reflexivity. Qed.

Lemma sub_loop_after_start (fuel : nat) (c : ascii) (s : string) :
  sub_loop fuel SUBDOMAIN "" (Some c) s = s.
Proof.
  revert c s. induction fuel as [|fuel IH]; intros c s; [reflexivity|].
  cbn [sub_loop]. rewrite match_here_after_start.
  destruct s as [|d s']; [reflexivity|]. rewrite IH. reflexivity.
Qed.

Lemma strip_prefix_consumed (w s s' : string) :
  strip_prefix w s = Some s' ->
  substring 0 (String.length s - String.length s') s = w.
Proof.
  intros H. pose proof (strip_prefix_length w s s' H) as L.
  replace (String.length s - String.length s') with (String.length w) by lia.
  clear L. revert s H. induction w as [|c w IH]; intros s H.
  - destruct s; reflexivity.
  - simpl in H. destruct s as [|d s0]; [discriminate|].
    destruct (Ascii.eqb_spec c d) as [<-|]; [|discriminate].
    simpl. rewrite (IH _ H). reflexivity.
Qed.

Lemma try_label (l s : string) (p : option ascii) :
  match strip_prefix l s with
  | Some s' =>
      step (chr_eq false ".") Some
        (capture 1 (MState None s []) (MState p s' []))
  | None => None
  end =
  match strip_prefix (l +:+ ".") s with
  | Some d => Some (MState (Some "."%char) d [(1, l)])
  | None => None
  end.
Proof.
  rewrite strip_prefix_app.
  destruct (strip_prefix l s) as [s'|] eqn:E; [|reflexivity].
  unfold step, capture, consumed, chr_eq. cbn [rest prev groups].
  rewrite (strip_prefix_consumed l s s' E).
  destruct s' as [|d s'']; [reflexivity|]. cbn [strip_prefix].
  destruct (Ascii.eqb_spec "."%char d) as [<-|]; reflexivity.
Qed.

Lemma match_here_start (s : string) :
  match_here false SUBDOMAIN None s =
  match strip_prefix "mail." s with
  | Some d => Some (MState (Some "."%char) d [(1, "mail")])
  | None =>
  match strip_prefix "no-reply." s with
  | Some d => Some (MState (Some "."%char) d [(1, "no-reply")])
  | None =>
  match strip_prefix "noreply." s with
  | Some d => Some (MState (Some "."%char) d [(1, "noreply")])
  | None =>
  match strip_prefix "jobs." s with
  | Some d => Some (MState (Some "."%char) d [(1, "jobs")])
  | None =>
  match strip_prefix "careers." s with
  | Some d => Some (MState (Some "."%char) d [(1, "careers")])
  | None => None
  end end end end end.
Proof.
  unfold match_here, SUBDOMAIN. cbn [rmatch prev].
  rewrite !rmatch_lit. cbn [rest prev groups].
  rewrite !try_label.
  change ("mail" +:+ ".") with "mail.".
  change ("no-reply" +:+ ".") with "no-reply.".
  change ("noreply" +:+ ".") with "noreply.".
  change ("jobs" +:+ ".") with "jobs.".
  change ("careers" +:+ ".") with "careers.".
  repeat match goal with
         | |- context [strip_prefix ?l s] =>
             destruct (strip_prefix l s); try reflexivity
         end.
Qed.

Lemma sub_SUBDOMAIN (s : string) :
  sub SUBDOMAIN "" s = strip_generic_label generic_labels s.
Proof.
  unfold sub, generic_labels. cbn [sub_loop strip_generic_label].
  rewrite match_here_start.
  repeat match goal with
         | |- context [strip_prefix ?l s] =>
             let E := fresh "E" in
             destruct (strip_prefix l s) as [d|] eqn:E;
             [ apply strip_prefix_length in E; cbn [rest prev];
               replace (String.length d <? String.length s) with true
                 by (symmetry; apply Nat.ltb_lt; rewrite E; simpl; lia);
               rewrite sub_loop_after_start; reflexivity | ]
         end.
  destruct s as [|c s']; [reflexivity|].
  rewrite sub_loop_after_start. reflexivity.
Qed.

(** *** An instance of [parseaddr] for the examples

    It covers the header values of the forms [phrase <address>],
    ["quoted name" <address>], [<address>] and a bare address: a quoted
    name is taken as it stands between the quotes, a phrase is trimmed. *)
Definition dquote : ascii := ascii_of_nat 34.

Definition quoted (s : string) : string :=
  String dquote (s +:+ String dquote EmptyString).

(** The text up to the first occurrence of [c], and the text after it. *)
Fixpoint cut_at (c : ascii) (s : string) : option (string * string) :=
  match s with
  | EmptyString => None
  | String d s' =>
      if Ascii.eqb d c then Some (EmptyString, s')
      else match cut_at c s' with
           | Some (a, b) => Some (String d a, b)
           | None => None
           end
  end.

Definition phrase_name (phrase : string) : string :=
  match strip phrase with
  | String d q =>
      if Ascii.eqb d dquote then
        match cut_at dquote q with
        | Some (inner, _) => inner
        | None => q
        end
      else String d q
  | EmptyString => EmptyString
  end.

Definition parseaddr_sample (s : string) : string * string :=
  match cut_at "<" s with
  | Some (phrase, after) =>
      match cut_at ">" after with
      | Some (addr, _) => (phrase_name phrase, addr)
      | None => (phrase_name phrase, after)
      end
  | None => (EmptyString, strip s)
  end.

Definition guess_sample : option string -> string :=
  guess_company_from_from parseaddr_sample.

Example guess_display_name :
  guess_sample (Some (quoted "Acme Recruiting" +:+ " <jobs@acme.com>"))
  = "Acme Recruiting".
Proof. vm_compute. reflexivity. Qed.

Example guess_from_domain :
  guess_sample (Some "<jobs@mail.greenhouse.io>") = "Greenhouse".
Proof. vm_compute. reflexivity. Qed.

(** One label is removed, not two. *)
Example guess_one_label :
  guess_sample (Some "<bot@no-reply.jobs.example.org>") = "Jobs".
Proof. vm_compute. reflexivity. Qed.

Example guess_upper_case_domain :
  guess_sample (Some "<HR@CAREERS.Initech.COM>") = "Initech".
Proof. vm_compute. reflexivity. Qed.

Example guess_no_header : guess_sample None = "".
Proof. vm_compute. reflexivity. Qed.

(** An address without [@] gives no guess. *)
Example guess_no_domain : guess_sample (Some "jobs") = "".
Proof. vm_compute. reflexivity. Qed.

Lemma strip_empty_name (name : string) :
  truthy name && truthy (strip name) = truthy (strip name).
Proof. destruct name; reflexivity. Qed.

Lemma at_sign_nonempty (email : string) :
  truthy email && mem_char "@" email = mem_char "@" email.
Proof. destruct email; reflexivity. Qed.

Lemma guess_company_refines_spec (parseaddr : string -> string * string)
  (h : option string) :
  guess_company_from_from parseaddr h =
  company_spec (fst (parseaddr (or_empty h))) (snd (parseaddr (or_empty h))).
Proof.
  unfold guess_company_from_from, company_spec, domain_of, first_label.
  destruct (parseaddr (or_empty h)) as [name email]. cbn [fst snd].
  rewrite strip_empty_name, at_sign_nonempty, sub_SUBDOMAIN. reflexivity.
Qed.

(** C7, as the code has it. For every From header value, the guess is the
    display name with its surrounding white space trimmed when that is not
    empty; otherwise, when the address contains [@], the text after its
    last [@], lower-cased, without one leading generic label ([mail.],
    [no-reply.], [noreply.], [jobs.], [careers.]), cut at its first dot and
    capitalized; otherwise the empty string.  A header parsed as
    ("Acme Recruiting", "jobs@acme.com") gives "Acme Recruiting" and one
    parsed as ("", "jobs@mail.greenhouse.io") gives "Greenhouse". *)
Theorem guess_company_trimmed_name_or_domain
  (parseaddr : string -> string * string) (h : option string) :
  guess_company_from_from parseaddr h =
    company_spec (fst (parseaddr (or_empty h)))
      (snd (parseaddr (or_empty h))) /\
  (parseaddr (or_empty h) = ("Acme Recruiting", "jobs@acme.com") ->
   guess_company_from_from parseaddr h = "Acme Recruiting") /\
  (parseaddr (or_empty h) = ("", "jobs@mail.greenhouse.io") ->
   guess_company_from_from parseaddr h = "Greenhouse").
Proof.
  split; [apply guess_company_refines_spec|].
  split; intros E; rewrite guess_company_refines_spec, E;
    vm_compute; reflexivity.
Qed.

Lemma guess_company_trimmed_name_or_domain_witness :
  parseaddr_sample
    (or_empty (Some (quoted "Acme Recruiting" +:+ " <jobs@acme.com>")))
  = ("Acme Recruiting", "jobs@acme.com") /\
  guess_sample (Some (quoted "Acme Recruiting" +:+ " <jobs@acme.com>"))
  = "Acme Recruiting" /\
  parseaddr_sample (or_empty (Some "<jobs@mail.greenhouse.io>"))
  = ("", "jobs@mail.greenhouse.io") /\
  guess_sample (Some "<jobs@mail.greenhouse.io>") = "Greenhouse".
Proof.
  split; [vm_compute; reflexivity|].
  split.
  { apply (proj1 (proj2 (guess_company_trimmed_name_or_domain
             parseaddr_sample
             (Some (quoted "Acme Recruiting" +:+ " <jobs@acme.com>"))))).
    vm_compute. reflexivity. }
  split; [vm_compute; reflexivity|].
  apply (proj2 (proj2 (guess_company_trimmed_name_or_domain
           parseaddr_sample (Some "<jobs@mail.greenhouse.io>")))).
  vm_compute. reflexivity.
Defined.

(** C7, as stated, fails: a quoted display name keeps the blanks written
    inside its quotes, and the guess is the trimmed name, not the name as
    it stands. *)
Lemma guess_company_name_not_verbatim :
  parseaddr_sample (quoted " Acme " +:+ " <jobs@acme.com>")
  = (" Acme ", "jobs@acme.com") /\
  truthy (strip " Acme ") = true /\
  guess_sample (Some (quoted " Acme " +:+ " <jobs@acme.com>")) = "Acme" /\
  guess_sample (Some (quoted " Acme " +:+ " <jobs@acme.com>")) <> " Acme ".
Proof.
  split; [vm_compute; reflexivity|].
  split; [reflexivity|].
  split; [vm_compute; reflexivity|].
  vm_compute. discriminate.
Qed.

End Company.

(** ** Job-title guesser *)

Module Title.
Import Text Regex.

(** The first pattern, with [re.I]: a group of four alternatives, the
    words "application for", "applied for", "applied to", or
    "your application" with a colon or a hyphen and any white space after
    it; then a second group, [.+]. *)
Definition PHRASE : regex :=
  Alt (lit "application for")
    (Alt (lit "applied for")
       (Alt (lit "applied to")
          (Seq (lit "your application")
             (Seq (OneOf ":-") (Star Space))))).

Definition APPLICATION : regex :=
  Seq (Group 1 PHRASE) (Group 2 (Plus Any)).

(** The second pattern, with [re.I]: "position", "role" or "title", a
    colon or a hyphen, any white space, then the group [.+]. *)
Definition KEYWORD : regex :=
  Alt (lit "position") (Alt (lit "role") (lit "title")).

Definition POSITION : regex :=
  Seq (Group 1 KEYWORD)
    (Seq (OneOf ":-") (Seq (Star Space) (Group 2 (Plus Any)))).

Definition guess_jobtitle_from_subject (subject : string) : string :=
  if negb (truthy subject) then ""
  else
    match search true APPLICATION subject with
    | Some m => strip_chars " -:" (strip (group m 2))
    | None =>
        match search true POSITION subject with
        | Some m2 => strip (group m2 2)
        | None =>
            if String.length subject <? 120 then strip subject
            else take 120 (strip subject)
        end
    end.

Lemma lstrip_by_length (f : ascii -> bool) (s : string) :
  String.length (lstrip_by f s) <= String.length s.
Proof.
  induction s as [|c s IH]; simpl; [lia|].
  destruct (f c); simpl; lia.
Qed.

Lemma rstrip_by_length (f : ascii -> bool) (s : string) :
  String.length (rstrip_by f s) <= String.length s.
Proof.
  induction s as [|c s IH]; simpl; [lia|].
  destruct (rstrip_by f s) as [|d r]; [destruct (f c)|]; simpl in *; lia.
Qed.

Lemma strip_length (s : string) :
  String.length (strip s) <= String.length s.
Proof.
  unfold strip, strip_by.
  pose proof (rstrip_by_length is_space (lstrip_by is_space s)).
  pose proof (lstrip_by_length is_space s). lia.
Qed.

Lemma take_length (n : nat) (s : string) : String.length (take n s) <= n.
Proof.
  unfold take. revert s. induction n as [|n IH]; intros s.
  - destruct s; simpl; lia.
  - destruct s as [|c s]; simpl; [lia|]. specialize (IH s). lia.
Qed.

(** *** What the two patterns find *)

Lemma lower_append (a b : string) : lower (a +:+ b) = lower a +:+ lower b.
Proof.
  induction a as [|c a IH]; [reflexivity|].
  rewrite append_cons. unfold lower in *. simpl. rewrite IH. reflexivity.
Qed.

Lemma lang_lit_lower (w u : string) :
  lang true (lit w) u -> lower u = lower w.
Proof.
  revert u. induction w as [|c w IH]; intros u H; cbn [lit lang] in H.
  - subst u. reflexivity.
  - destruct H as (u1 & u2 & -> & (d & -> & E) & L).
    change (String d "" +:+ u2) with (String d u2).
    unfold lower in *. simpl. rewrite (IH _ L).
    unfold chr_eq in E. apply Ascii.eqb_eq in E. rewrite E. reflexivity.
Qed.

Lemma separator_char (d : ascii) :
  chr_in true d ":-" = true -> d = ":"%char \/ d = "-"%char.
Proof.
  destruct d as [[] [] [] [] [] [] [] []]; vm_compute; intros H;
    try discriminate H; auto.
Qed.

Lemma space_lower (d : ascii) : is_space d = true -> lower_char d = d.
Proof.
  destruct d as [[] [] [] [] [] [] [] []]; vm_compute; intros H;
    try discriminate H; reflexivity.
Qed.

Lemma lang_spaces (ic : bool) (u : string) :
  lang ic (Star Space) u -> all_chars is_space u = true /\ lower u = u.
Proof.
  cbn [lang]. intros (us & -> & F).
  induction F as [|x us (d & -> & E) _ IH]; [split; reflexivity|].
  cbn [join]. change (String d "" +:+ join us) with (String d (join us)).
  cbn [all_chars]. unfold lower in *. simpl.
  rewrite E, (space_lower d E). destruct IH as [-> ->]. split; reflexivity.
Qed.

(** The words before the trailing text of the first pattern. *)
Definition application_phrase (u : string) : Prop :=
  lower u = "application for" \/ lower u = "applied for" \/
  lower u = "applied to" \/
  exists sep ws,
    lower u = "your application" +:+ String sep ws /\
    (sep = ":"%char \/ sep = "-"%char) /\ all_chars is_space ws = true.

(** The trailing text [g], followed by [r] in the subject, runs to the end
    of its line and is not empty. *)
Definition to_end_of_line (g r : string) : Prop :=
  g <> EmptyString /\ first_line (g +:+ r) = g.

Lemma lang_PHRASE (u : string) : lang true PHRASE u -> application_phrase u.
Proof.
  unfold PHRASE, application_phrase. cbn [lang].
  intros [H|[H|[H|H]]].
  - left. exact (lang_lit_lower _ _ H).
  - right. left. exact (lang_lit_lower _ _ H).
  - right. right. left. exact (lang_lit_lower _ _ H).
  - right. right. right.
    destruct H as (u1 & u2 & -> & L1 & (u3 & u4 & -> & (d & -> & S) & L4)).
    apply lang_lit_lower in L1.
    destruct (lang_spaces true u4 L4) as [W E].
    exists d, u4. split; [|split; [exact (separator_char d S)|exact W]].
    change (String d "" +:+ u4) with (String d u4).
    rewrite lower_append, L1.
    change (lower (String d u4)) with (String (lower_char d) (lower u4)).
    rewrite E. destruct (separator_char d S) as [-> | ->]; reflexivity.
Qed.

Lemma trailing_text (n : nat) (st m : mstate) :
  rmatch true (Group n (Plus Any)) Some st = Some m ->
  rest st = group m n +:+ rest m /\ to_end_of_line (group m n) (rest m).
Proof.
  intros H. apply trailing_group in H as (G & R & N).
  rewrite G, R. split; [apply line_split|].
  split; [exact N|]. rewrite <- line_split. reflexivity.
Qed.

Lemma application_found (subject : string) (m : mstate) :
  search true APPLICATION subject = Some m ->
  exists before phrase,
    subject = before +:+ phrase +:+ group m 2 +:+ rest m /\
    application_phrase phrase /\ to_end_of_line (group m 2) (rest m).
Proof.
  intros H. apply search_from_origin in H as (before & p & tail & -> & M).
  unfold match_here, APPLICATION in M. cbn [rmatch] in M.
  apply rmatch_sound in M as (st1 & u1 & K & R & L).
  apply trailing_text in K as [S E]. cbn [rest capture] in R, S.
  exists before, u1. split; [|split; [exact (lang_PHRASE u1 L)|exact E]].
  rewrite R, S. reflexivity.
Qed.

Lemma position_found (subject : string) (m : mstate) :
  search true POSITION subject = Some m ->
  exists before keyword sep ws,
    subject = before +:+ keyword +:+ String sep ws +:+ group m 2 +:+ rest m /\
    (lower keyword = "position" \/ lower keyword = "role" \/
     lower keyword = "title") /\
    (sep = ":"%char \/ sep = "-"%char) /\ all_chars is_space ws = true /\
    to_end_of_line (group m 2) (rest m).
Proof.
  intros H. apply search_from_origin in H as (before & p & tail & -> & M).
  unfold match_here, POSITION in M. cbn [rmatch] in M.
  apply rmatch_sound in M as (st1 & u1 & K & R & L).
  apply step_origin in K as (d & s' & R2 & S & K).
  change (rmatch true (Star Space)
            (rmatch true (Group 2 (Plus Any)) Some)
            (advance d s' (capture 1 (MState p tail []) st1)) = Some m) in K.
  apply rmatch_sound in K as (st3 & ws & K & R3 & L3).
  apply trailing_text in K as [T E].
  cbn [rest capture advance] in R, R2, R3, T.
  exists before, u1, d, ws.
  split; [rewrite R, R2, R3, T; reflexivity|].
  split.
  { unfold KEYWORD in L. cbn [lang] in L.
    destruct L as [L|[L|L]]; apply lang_lit_lower in L; auto. }
  split; [exact (separator_char d S)|].
  split; [exact (proj1 (lang_spaces true ws L3))|exact E].
Qed.

(** No pattern is found in the empty subject. *)
Lemma search_empty_subject :
  search true APPLICATION "" = None /\ search true POSITION "" = None.
Proof. split; reflexivity. Qed.

Lemma search_truthy (r : regex) (subject : string) (m : mstate) :
  search true r "" = None ->
  search true r subject = Some m ->
  truthy subject = true.
Proof. intros E H. destruct subject; [congruence|reflexivity]. Qed.

(** C8, as the code has it. The rules are tried in order and the first that
    applies gives the guess: (a) when the first pattern is found, its
    trailing group, trimmed of white space and then of blanks, hyphens and
    colons, the group being the rest of the line after one of the phrases
    "application for", "applied for", "applied to" or "your application"
    with its colon or hyphen, in any case; (b) else, when the second
    pattern is found, its trailing group, trimmed, the group being the
    rest of the line after "position", "role" or "title", a colon or a
    hyphen and white space; (c) else the subject with its surrounding white space
    trimmed when the subject has fewer than 120 characters, and otherwise
    the first 120 characters of the trimmed subject.  In case (c) the guess
    has at most 120 characters and it is the subject itself when the
    subject is short and has no surrounding white space.  The guesser is a
    total function: it returns a text for every subject. *)
Theorem guess_jobtitle_rules (subject : string) :
  (forall m, search true APPLICATION subject = Some m ->
     guess_jobtitle_from_subject subject
     = strip_chars " -:" (strip (group m 2)) /\
     exists before phrase,
       subject = before +:+ phrase +:+ group m 2 +:+ rest m /\
       application_phrase phrase /\ to_end_of_line (group m 2) (rest m)) /\
  (forall m2, search true APPLICATION subject = None ->
     search true POSITION subject = Some m2 ->
     guess_jobtitle_from_subject subject = strip (group m2 2) /\
     exists before keyword sep ws,
       subject
       = before +:+ keyword +:+ String sep ws +:+ group m2 2 +:+ rest m2 /\
       (lower keyword = "position" \/ lower keyword = "role" \/
        lower keyword = "title") /\
       (sep = ":"%char \/ sep = "-"%char) /\
       all_chars is_space ws = true /\
       to_end_of_line (group m2 2) (rest m2)) /\
  (search true APPLICATION subject = None ->
   search true POSITION subject = None ->
   guess_jobtitle_from_subject subject
   = (if String.length subject <? 120 then strip subject
      else take 120 (strip subject)) /\
   String.length (guess_jobtitle_from_subject subject) <= 120 /\
   (String.length subject < 120 -> strip subject = subject ->
    guess_jobtitle_from_subject subject = subject)).
Proof.
  destruct search_empty_subject as [EA EP].
  unfold guess_jobtitle_from_subject.
  split; [|split].
  - intros m H. split; [|exact (application_found subject m H)].
    rewrite (search_truthy _ _ _ EA H), H. reflexivity.
  - intros m2 HA H. split; [|exact (position_found subject m2 H)].
    rewrite (search_truthy _ _ _ EP H), HA, H. reflexivity.
  - intros HA HP. rewrite HA, HP.
    assert (E : (if negb (truthy subject) then ""
                 else if String.length subject <? 120 then strip subject
                      else take 120 (strip subject))
                = (if String.length subject <? 120 then strip subject
                   else take 120 (strip subject))).
    { destruct subject; reflexivity. }
    rewrite E. split; [reflexivity|]. split.
    + destruct (Nat.ltb_spec (String.length subject) 120) as [L|L].
      * pose proof (strip_length subject). lia.
      * apply take_length.
    + intros L S. apply Nat.ltb_lt in L. rewrite L. exact S.
Qed.

Lemma guess_jobtitle_rules_witness :
  search true APPLICATION "Your application: Senior Backend Engineer"
  = Some (MState (Some "r"%char) ""
            [(2, "Senior Backend Engineer"); (1, "Your application: ")]) /\
  guess_jobtitle_from_subject "Your application: Senior Backend Engineer"
  = "Senior Backend Engineer" /\
  search true APPLICATION "Open role: Staff Engineer " = None /\
  search true POSITION "Open role: Staff Engineer "
  = Some (MState (Some " "%char) "" [(2, "Staff Engineer "); (1, "role")]) /\
  guess_jobtitle_from_subject "Open role: Staff Engineer " = "Staff Engineer" /\
  search true APPLICATION "Quick update" = None /\
  search true POSITION "Quick update" = None /\
  guess_jobtitle_from_subject "Quick update" = "Quick update".
Proof.
  assert (A : search true APPLICATION
                "Your application: Senior Backend Engineer"
              = Some (MState (Some "r"%char) ""
                        [(2, "Senior Backend Engineer");
                         (1, "Your application: ")]))
    by (vm_compute; reflexivity).
  assert (B1 : search true APPLICATION "Open role: Staff Engineer " = None)
    by (vm_compute; reflexivity).
  assert (B2 : search true POSITION "Open role: Staff Engineer "
               = Some (MState (Some " "%char) ""
                         [(2, "Staff Engineer "); (1, "role")]))
    by (vm_compute; reflexivity).
  assert (C1 : search true APPLICATION "Quick update" = None)
    by (vm_compute; reflexivity).
  assert (C2 : search true POSITION "Quick update" = None)
    by (vm_compute; reflexivity).
  split; [exact A|]. split.
  { rewrite (proj1 (proj1 (guess_jobtitle_rules
               "Your application: Senior Backend Engineer") _ A)).
    vm_compute. reflexivity. }
  split; [exact B1|]. split; [exact B2|]. split.
  { rewrite (proj1 (proj1 (proj2 (guess_jobtitle_rules
               "Open role: Staff Engineer ")) _ B1 B2)).
    vm_compute. reflexivity. }
  split; [exact C1|]. split; [exact C2|].
  apply (proj2 (proj2 (guess_jobtitle_rules "Quick update")) C1 C2).
  - simpl. lia.
  - vm_compute. reflexivity.
Defined.

(** C8, as stated, fails in rule (c): a short subject with white space
    around it is not returned as it stands but trimmed. *)
Lemma guess_jobtitle_not_verbatim :
  search true APPLICATION " Quick update" = None /\
  search true POSITION " Quick update" = None /\
  String.length " Quick update" < 120 /\
  guess_jobtitle_from_subject " Quick update" = "Quick update" /\
  guess_jobtitle_from_subject " Quick update" <> " Quick update".
Proof.
  split; [vm_compute; reflexivity|].
  split; [vm_compute; reflexivity|].
  split; [simpl; lia|].
  split; [vm_compute; reflexivity|].
  vm_compute. discriminate.
Qed.

End Title.

(** ** Date normalization (the date block of [parse_message]) *)

Module DateNorm.
Import Text.

Section DateNormalization.

(** [datetime.datetime] values. *)
Variable datetime : Type.

(** [email.utils.parsedate_to_datetime]: raises on a text it cannot
    parse. *)
Variable parsedate_to_datetime : string -> result datetime.

(** [date_dt.tzinfo is None]: the date carries no zone information. *)
Variable tzinfo_is_none : datetime -> bool.

(** [date_dt.replace(tzinfo=tz.tzutc()).astimezone(tz.tzlocal())]: the date
    read with a zero offset and moved to the local time zone. *)
Variable utc_to_local : datetime -> result datetime.

(** [date_dt.isoformat()] *)
Variable isoformat : datetime -> string.

(** The body of the [try]. *)
Definition date_try (header_date : option string) : result string :=
  date_dt <-- match header_date with
              | Some h =>
                  if truthy h
                  then dt <-- parsedate_to_datetime h ;; Ok (Some dt)
                  else Ok None
              | None => Ok None
              end ;;
  date_dt <-- match date_dt with
              | Some dt =>
                  if tzinfo_is_none dt
                  then dt' <-- utc_to_local dt ;; Ok (Some dt')
                  else Ok (Some dt)
              | None => Ok None
              end ;;
  Ok match date_dt with
     | Some dt => isoformat dt
     | None => EmptyString
     end.

(** [try: ... except Exception: date_iso = header_date or ""] *)
Definition date_iso (header_date : option string) : result string :=
  catch (date_try header_date) (fun _ => Ok (or_empty header_date)).

Lemma date_iso_total (header_date : option string) :
  exists s, date_iso header_date = Ok s.
Proof.
  unfold date_iso, date_try.
  destruct header_date as [h|]; [|simpl; eauto].
  destruct (truthy h); [|simpl; eauto].
  destruct (parsedate_to_datetime h) as [dt|e]; [|simpl; eauto].
  simpl. destruct (tzinfo_is_none dt); [|simpl; eauto].
  destruct (utc_to_local dt); simpl; eauto.
Qed.

(** C6. The date normalization raises for no value of the Date header; a
    date that parses with its zone is returned in ISO format; a date that
    parses without zone information is read with a zero offset, moved to
    the local zone and returned in ISO format; when the parsing (or the
    move to the local zone) raises, the raw header text is returned; and
    an absent header gives the empty string. *)
Theorem date_iso_never_raises (header_date : option string) :
  (exists s, date_iso header_date = Ok s) /\
  (forall h dt, header_date = Some h -> truthy h = true ->
     parsedate_to_datetime h = Ok dt -> tzinfo_is_none dt = false ->
     date_iso header_date = Ok (isoformat dt)) /\
  (forall h dt dt', header_date = Some h -> truthy h = true ->
     parsedate_to_datetime h = Ok dt -> tzinfo_is_none dt = true ->
     utc_to_local dt = Ok dt' ->
     date_iso header_date = Ok (isoformat dt')) /\
  (forall h e, header_date = Some h ->
     parsedate_to_datetime h = Raise e ->
     date_iso header_date = Ok h) /\
  (forall h dt e, header_date = Some h -> truthy h = true ->
     parsedate_to_datetime h = Ok dt -> tzinfo_is_none dt = true ->
     utc_to_local dt = Raise e ->
     date_iso header_date = Ok h) /\
  (header_date = None -> date_iso header_date = Ok "").
Proof.
  split; [apply date_iso_total|].
  unfold date_iso, date_try.
  split; [|split; [|split; [|split]]].
  - intros h dt -> T P Z. rewrite T, P. simpl. rewrite Z. reflexivity.
  - intros h dt dt' -> T P Z L. rewrite T, P. simpl. rewrite Z, L.
    reflexivity.
  - intros h e -> P. destruct h as [|c h]; [reflexivity|].
    cbn [truthy]. rewrite P. reflexivity.
  - intros h dt e -> T P Z L. rewrite T, P. simpl. rewrite Z, L.
    reflexivity.
  - intros ->. reflexivity.
Qed.

End DateNormalization.

(** *** An instance for the examples

    A date is its ISO text without the zone and, when it has one, the
    zone; the sample parser knows two header values; the local zone of the
    sample machine is one hour ahead. *)
Definition sample_datetime : Type := (string * option string)%type.

Definition parsedate_sample (h : string) : result sample_datetime :=
  if String.eqb h "Mon, 01 Jan 2024 10:00:00 +0200"
  then Ok ("2024-01-01T10:00:00", Some "+02:00")
  else if String.eqb h "Mon, 01 Jan 2024 10:00:00"
  then Ok ("2024-01-01T10:00:00", None)
  else Raise ValueError.

Definition naive_sample (dt : sample_datetime) : bool :=
  match snd dt with
  | None => true
  | Some _ => false
  end.

Definition to_local_sample (dt : sample_datetime) : result sample_datetime :=
  if String.eqb (fst dt) "2024-01-01T10:00:00"
  then Ok ("2024-01-01T11:00:00", Some "+01:00")
  else Raise OverflowError.

Definition isoformat_sample (dt : sample_datetime) : string :=
  fst dt +:+ or_empty (snd dt).

Definition date_iso_sample : option string -> result string :=
  date_iso sample_datetime parsedate_sample naive_sample to_local_sample
    isoformat_sample.

Lemma date_iso_never_raises_witness :
  date_iso_sample (Some "Mon, 01 Jan 2024 10:00:00 +0200")
  = Ok "2024-01-01T10:00:00+02:00" /\
  date_iso_sample (Some "Mon, 01 Jan 2024 10:00:00")
  = Ok "2024-01-01T11:00:00+01:00" /\
  date_iso_sample (Some "next Tuesday") = Ok "next Tuesday" /\
  date_iso_sample None = Ok "".
Proof.
  split.
  { apply (proj1 (proj2 (date_iso_never_raises sample_datetime parsedate_sample
             naive_sample to_local_sample isoformat_sample
             (Some "Mon, 01 Jan 2024 10:00:00 +0200")))
             "Mon, 01 Jan 2024 10:00:00 +0200"
             ("2024-01-01T10:00:00", Some "+02:00")); reflexivity. }
  split.
  { apply (proj1 (proj2 (proj2 (date_iso_never_raises sample_datetime
             parsedate_sample naive_sample to_local_sample isoformat_sample
             (Some "Mon, 01 Jan 2024 10:00:00"))))
             "Mon, 01 Jan 2024 10:00:00"
             ("2024-01-01T10:00:00", None)
             ("2024-01-01T11:00:00", Some "+01:00")); reflexivity. }
  split.
  { apply (proj1 (proj2 (proj2 (proj2 (date_iso_never_raises sample_datetime
             parsedate_sample naive_sample to_local_sample isoformat_sample
             (Some "next Tuesday")))))
             "next Tuesday" ValueError); reflexivity. }
  apply (proj2 (proj2 (proj2 (proj2 (proj2 (date_iso_never_raises
           sample_datetime parsedate_sample naive_sample to_local_sample
           isoformat_sample None)))))).
  reflexivity.
Defined.

End DateNorm.

(** ** Persistence and the main loop *)

Module Pipeline.
Import Text.

(** The dictionary [parse_message] returns.  [raw.get("id")] and
    [raw.get("threadId")] are [None] when the key is missing. *)
Record record : Type := Record {
  message_id : option string;
  thread_id : option string;
  date : string;
  sender_name : string;
  sender_email : string;
  subject : string;
  company_guess : string;
  job_title_guess : string;
  status : string;
  preview : string
}.

(** The CSV file as the [csv] module reads and writes it: its rows, each a
    list of fields, the header row included; a blank line is the empty
    row.  The store at a path is [None] when no file exists there.  The
    rows are those of a text whose last line is ended, as the [csv] writer
    leaves it. *)
Definition csv_row : Type := list string.
Definition csv_file : Type := list csv_row.
Definition store : Type := option csv_file.

Definition headers : list string :=
  ["message_id"; "thread_id"; "date"; "sender_name"; "sender_email";
   "subject"; "company_guess"; "job_title_guess"; "status"; "preview"].

(** [DictWriter.writerow]: the values in the order of the field names, a
    [None] written as the empty field. *)
Definition dict_to_row (r : record) : csv_row :=
  [or_empty (message_id r); or_empty (thread_id r); date r; sender_name r;
   sender_email r; subject r; company_guess r; job_title_guess r; status r;
   preview r].

Definition exists_path (path : store) : bool :=
  match path with
  | Some _ => true
  | None => false
  end.

(** What the file at the path holds, nothing when it does not exist. *)
Definition contents (path : store) : csv_file :=
  match path with
  | Some file => file
  | None => []
  end.

(** [write_csv(path, rows, append)]: mode "a" keeps what the file holds
    and mode "w" truncates it; the result is the file after the call. *)
Definition write_csv (path : store) (rows : list record) (append : bool)
  : store :=
  let write_header := negb (append && exists_path path) in
  let kept := if append then contents path else [] in
  Some (kept ++ (if write_header then [headers] else [])
          ++ map dict_to_row rows).

(** The dictionary [csv.DictReader] makes of a row: the field names zipped
    with the fields, then [None] for every field name the row is too short
    for; a later assignment to the same key overrides an earlier one. *)
Definition dict_of_row (fieldnames row : list string)
  : gmap string (option string) :=
  let d := fold_left (fun d kv => <[kv.1 := Some kv.2]> d)
             (zip fieldnames row) ∅ in
  fold_left (fun d key => <[key := None]> d)
    (drop (length row) fieldnames) d.

(** [row.get("message_id")], flattened: the field, when the row has it. *)
Definition row_message_id (fieldnames row : list string) : option string :=
  match dict_of_row fieldnames row !! "message_id" with
  | Some v => v
  | None => None
  end.

(** One turn of the loop of [load_existing_ids]; [DictReader] does not
    return blank rows. *)
Definition add_row_id (fieldnames : list string) (ids : gset string)
  (row : csv_row) : gset string :=
  match row with
  | [] => ids
  | _ :: _ =>
      match row_message_id fieldnames row with
      | Some v => if truthy v then {[v]} ∪ ids else ids
      | None => ids
      end
  end.

Definition load_existing_ids (path : store) : gset string :=
  match path with
  | None => ∅
  | Some [] => ∅
  | Some (fieldnames :: rows) => fold_left (add_row_id fieldnames) rows ∅
  end.

(** What [main] prints after the search. *)
Inductive output : Type :=
| NewMessages (n skipped : nat)
| Processed (i total : nat)
| ErrorParsing (mid : string) (e : exn)
| Wrote (n : nat)
| NoNewRows.

(** The state of the loop over [to_process]: the rows collected, the lines
    printed and the identifiers handed to [parse_message] so far. *)
Record loop_state : Type := LoopState {
  rows : list record;
  printed : list output;
  fetched : list string
}.

(** The result of a run: the store after it, with the final loop state. *)
Record run : Type := Run {
  stored : store;
  final : loop_state
}.

Section Main.

(** [parse_message(svc, mid)] for the service of the run: fetches the
    message and builds its record, or raises. *)
Variable parse_message : string -> result record.

(** [for i, mid in enumerate(to_process, start=1)] with its [try]. *)
Fixpoint process (total i : nat) (to_process : list string) (st : loop_state)
  : loop_state :=
  match to_process with
  | [] => st
  | mid :: to_process' =>
      process total (S i) to_process'
        match parse_message mid with
        | Ok parsed =>
            LoopState (rows st ++ [parsed])
              (printed st ++
                 (if i mod 25 =? 0 then [Processed i total] else []))
              (fetched st ++ [mid])
        | Raise e =>
            LoopState (rows st) (printed st ++ [ErrorParsing mid e])
              (fetched st ++ [mid])
        end
  end.

(** [main] from the result [ids] of the search on, after the line that
    reports how many identifiers were found: [append] is the [--append]
    flag and [out] the store at the output path. *)
Definition main (append : bool) (out : store) (ids : list string) : run :=
  let existing_ids := if append then load_existing_ids out else ∅ in
  let to_process := filter (fun i => i ∉ existing_ids) ids in
  let st0 := LoopState []
               [NewMessages (length to_process)
                  (length ids - length to_process)] [] in
  let st := process (length to_process) 1 to_process st0 in
  match rows st with
  | _ :: _ =>
      Run (write_csv out (rows st) append)
        (LoopState (rows st) (printed st ++ [Wrote (length (rows st))])
           (fetched st))
  | [] =>
      Run out (LoopState (rows st) (printed st ++ [NoNewRows]) (fetched st))
  end.

End Main.

(** The non-empty message identifiers of the data rows, in their order:
    the column as [load_existing_ids] reads it. *)
Definition row_ids (fieldnames : list string) (row : csv_row) : list string :=
  match row with
  | [] => []
  | _ :: _ =>
      match row_message_id fieldnames row with
      | Some v => if truthy v then [v] else []
      | None => []
      end
  end.

Definition stored_ids (path : store) : list string :=
  match path with
  | None => []
  | Some [] => []
  | Some (fieldnames :: data) => flat_map (row_ids fieldnames) data
  end.

Lemma add_row_id_union (f : list string) (ids : gset string) (row : csv_row) :
  add_row_id f ids row = ids ∪ list_to_set (row_ids f row).
Proof.
  unfold add_row_id, row_ids. destruct row as [|v row]; [set_solver|].
  destruct (row_message_id f (v :: row)) as [mid|]; [|set_solver].
  destruct (truthy mid); set_solver.
Qed.

Lemma fold_add_row_id (f : list string) (data : list csv_row)
  (ids : gset string) :
  fold_left (add_row_id f) data ids
  = ids ∪ list_to_set (flat_map (row_ids f) data).
Proof.
  revert ids. induction data as [|row data IH]; intros ids; simpl.
  - set_solver.
  - rewrite IH, add_row_id_union, list_to_set_app_L. set_solver.
Qed.

Lemma load_existing_ids_stored (path : store) :
  load_existing_ids path = list_to_set (stored_ids path).
Proof.
  destruct path as [[|f data]|]; simpl; try reflexivity.
  rewrite fold_add_row_id. set_solver.
Qed.

Lemma row_ids_written (r : record) :
  row_ids headers (dict_to_row r)
  = if truthy (or_empty (message_id r)) then [or_empty (message_id r)]
    else [].
Proof. reflexivity. Qed.

Section MainFacts.

Variable parse_message : string -> result record.

(** The records of the messages that parse, in the order of the
    identifiers. *)
Fixpoint parsed_records (mids : list string) : list record :=
  match mids with
  | [] => []
  | mid :: mids' =>
      match parse_message mid with
      | Ok parsed => parsed :: parsed_records mids'
      | Raise _ => parsed_records mids'
      end
  end.

(** The identifiers [main] processes. *)
Definition to_process_of (append : bool) (out : store) (ids : list string)
  : list string :=
  filter (fun i => i ∉ (if append then load_existing_ids out else ∅)) ids.

Lemma process_rows (total i : nat) (mids : list string) (st : loop_state) :
  rows (process parse_message total i mids st)
  = rows st ++ parsed_records mids.
Proof.
  revert i st. induction mids as [|mid mids IH]; intros i st; simpl.
  - rewrite app_nil_r. reflexivity.
  - rewrite IH. destruct (parse_message mid) as [parsed|e]; simpl.
    + rewrite <- app_assoc. reflexivity.
    + reflexivity.
Qed.

Lemma process_fetched (total i : nat) (mids : list string) (st : loop_state) :
  fetched (process parse_message total i mids st) = fetched st ++ mids.
Proof.
  revert i st. induction mids as [|mid mids IH]; intros i st; simpl.
  - rewrite app_nil_r. reflexivity.
  - rewrite IH. destruct (parse_message mid); simpl;
      rewrite <- app_assoc; reflexivity.
Qed.

Lemma process_printed_keeps (total i : nat) (mids : list string)
  (st : loop_state) (o : output) :
  In o (printed st) -> In o (printed (process parse_message total i mids st)).
Proof.
  revert i st. induction mids as [|mid mids IH]; intros i st H; simpl.
  - exact H.
  - apply IH. destruct (parse_message mid); simpl; apply in_or_app; left;
      exact H.
Qed.

Lemma process_logs_errors (total i : nat) (mids : list string)
  (st : loop_state) (mid : string) (e : exn) :
  In mid mids -> parse_message mid = Raise e ->
  In (ErrorParsing mid e) (printed (process parse_message total i mids st)).
Proof.
  revert i st. induction mids as [|m mids IH]; intros i st H E; simpl.
  - destruct H.
  - destruct H as [->|H].
    + apply process_printed_keeps. rewrite E. simpl.
      apply in_or_app. right. left. reflexivity.
    + apply IH; assumption.
Qed.

Lemma parsed_records_in (mids : list string) (r : record) :
  In r (parsed_records mids) <->
  exists mid, In mid mids /\ parse_message mid = Ok r.
Proof.
  induction mids as [|m mids IH]; simpl.
  - split; [intros []|intros (mid & [] & _)].
  - destruct (parse_message m) as [parsed|e] eqn:E; simpl; rewrite IH.
    + split.
      * intros [<-|(mid & H & P)]; [exists m; auto|exists mid; auto].
      * intros (mid & [<-|H] & P); [left; congruence|right; eauto].
    + split.
      * intros (mid & H & P). exists mid; auto.
      * intros (mid & [<-|H] & P); [congruence|eauto].
Qed.

Lemma parsed_records_skip (l1 l2 : list string) (mid : string) (e : exn) :
  parse_message mid = Raise e ->
  parsed_records (l1 ++ mid :: l2) = parsed_records (l1 ++ l2).
Proof.
  intros E. induction l1 as [|m l1 IH]; simpl.
  - rewrite E. reflexivity.
  - rewrite IH. reflexivity.
Qed.

Lemma main_final (append : bool) (out : store) (ids : list string) :
  rows (final (main parse_message append out ids))
  = parsed_records (to_process_of append out ids) /\
  fetched (final (main parse_message append out ids))
  = to_process_of append out ids /\
  stored (main parse_message append out ids)
  = match parsed_records (to_process_of append out ids) with
    | [] => out
    | _ :: _ =>
        write_csv out (parsed_records (to_process_of append out ids)) append
    end.
Proof.
  unfold main. fold (to_process_of append out ids).
  set (mids := to_process_of append out ids).
  set (st0 := LoopState [] _ []).
  pose proof (process_rows (length mids) 1 mids st0) as R.
  pose proof (process_fetched (length mids) 1 mids st0) as F.
  simpl in R, F.
  destruct (rows (process parse_message (length mids) 1 mids st0))
    as [|r rs] eqn:E; cbn [final stored rows fetched].
  - rewrite <- R. auto.
  - rewrite <- R. auto.
Qed.

(** C9. For every batch, every identifier to process is handed to
    [parse_message], in order, whether or not an earlier one failed; a
    message whose fetch or parse raises is reported with its identifier and
    contributes no row, the rows being those of the batch without it; every
    row collected is the complete record [parse_message] returned for one
    message; and what is written is exactly these complete records. *)
Theorem main_skips_failed_messages (append : bool) (out : store) (ids : list string) :
  let r := main parse_message append out ids in
  let mids := to_process_of append out ids in
  fetched (final r) = mids /\
  rows (final r) = parsed_records mids /\
  (forall mid e, In mid mids -> parse_message mid = Raise e ->
     In (ErrorParsing mid e) (printed (final r)) /\
     forall l1 l2, mids = l1 ++ mid :: l2 ->
       rows (final r) = parsed_records (l1 ++ l2)) /\
  (forall row, In row (rows (final r)) ->
     exists mid, In mid mids /\ parse_message mid = Ok row) /\
  stored r = match rows (final r) with
             | [] => out
             | _ :: _ =>
                 Some ((if append then contents out else [])
                         ++ (if negb (append && exists_path out)
                             then [headers] else [])
                         ++ map dict_to_row (rows (final r)))
             end.
Proof.
  intros r mids.
  destruct (main_final append out ids) as (R & F & S).
  fold r mids in R, F, S.
  split; [exact F|]. split; [exact R|]. split; [|split].
  - intros mid e H E. split.
    + subst r. unfold main. fold (to_process_of append out ids). fold mids.
      set (st := process _ _ _ _ _).
      assert (P : In (ErrorParsing mid e) (printed st))
        by (apply process_logs_errors; assumption).
      destruct (rows st); cbn [final printed]; apply in_or_app; left; exact P.
    + intros l1 l2 M. rewrite R, M. apply (parsed_records_skip _ _ _ e E).
  - intros row H. rewrite R in H. apply parsed_records_in. exact H.
  - rewrite S, R. reflexivity.
Qed.


Lemma to_process_overwrite (out : store) (ids : list string) :
  to_process_of false out ids = ids.
Proof.
  unfold to_process_of. induction ids as [|i ids IH]; [reflexivity|].
  rewrite filter_cons_True by set_solver. rewrite IH. reflexivity.
Qed.

(** C5, as the code has it. In overwrite mode a run that produces at
    least one record writes a fresh store, the header row followed by
    exactly the records of the run, whatever the store held before; a run
    that produces no record writes nothing and leaves the store as it
    was. *)
Theorem main_overwrite_fresh_store (out : store) (ids : list string) :
  let r := main parse_message false out ids in
  rows (final r) = parsed_records ids /\
  (rows (final r) <> [] ->
   stored r = Some (headers :: map dict_to_row (rows (final r)))) /\
  (rows (final r) = [] -> stored r = out).
Proof.
  intros r.
  destruct (main_final false out ids) as (R & _ & S).
  rewrite to_process_overwrite in R, S. fold r in R, S.
  split; [exact R|]. rewrite S, R.
  destruct (parsed_records ids) as [|p ps]; split; try congruence.
  intros _. reflexivity.
Qed.

(** *** The set of known identifiers *)

(** C10. A row whose [message_id] field is empty or absent adds nothing to
    the set of known identifiers: the set is the same as without the row,
    its members are the non-empty identifiers of the other rows, and the
    identifiers processed in append mode are the same as without the
    row. *)
Theorem load_existing_ids_skips_empty (fieldnames : list string)
  (before after : list csv_row) (row : csv_row) (ids : list string) :
  (row_message_id fieldnames row = None \/
   row_message_id fieldnames row = Some "") ->
  load_existing_ids (Some (fieldnames :: before ++ row :: after))
  = load_existing_ids (Some (fieldnames :: before ++ after)) /\
  (forall mid,
     mid ∈ load_existing_ids (Some (fieldnames :: before ++ row :: after))
     <-> exists row', In row' (before ++ after) /\ row' <> [] /\
           row_message_id fieldnames row' = Some mid /\ mid <> "") /\
  fetched (final (main parse_message true
                    (Some (fieldnames :: before ++ row :: after)) ids))
  = fetched (final (main parse_message true
                      (Some (fieldnames :: before ++ after)) ids)).
Proof.
  intros H.
  assert (N : row_ids fieldnames row = []).
  { unfold row_ids. destruct row as [|v row]; [reflexivity|].
    destruct H as [-> | ->]; reflexivity. }
  assert (E : load_existing_ids (Some (fieldnames :: before ++ row :: after))
              = load_existing_ids (Some (fieldnames :: before ++ after))).
  { rewrite !load_existing_ids_stored. cbn [stored_ids].
    rewrite !flat_map_app. cbn [flat_map]. rewrite N. reflexivity. }
  split; [exact E|]. split.
  - intros mid. rewrite E, load_existing_ids_stored, elem_of_list_to_set.
    cbn [stored_ids]. rewrite list_elem_of_In, in_flat_map.
    split.
    + intros (row' & I & M). exists row'. split; [exact I|].
      unfold row_ids in M. destruct row' as [|v row']; [destruct M|].
      split; [discriminate|].
      destruct (row_message_id fieldnames (v :: row')) as [w|]; [|destruct M].
      destruct w as [|c w]; [destruct M|].
      destruct M as [<-|[]]. split; [reflexivity|discriminate].
    + intros (row' & I & Hne & M & T). exists row'. split; [exact I|].
      unfold row_ids. destruct row' as [|v row']; [congruence|].
      rewrite M. destruct mid; [congruence|]. left. reflexivity.
  - destruct (main_final true (Some (fieldnames :: before ++ row :: after))
                ids) as (_ & -> & _).
    destruct (main_final true (Some (fieldnames :: before ++ after)) ids)
      as (_ & -> & _).
    unfold to_process_of. rewrite E. reflexivity.
Qed.

(** *** Append mode *)

(** The store is missing or begins with the header row of [write_csv]. *)
Definition header_ok (path : store) : Prop :=
  match path with
  | None => True
  | Some file => exists data, file = headers :: data
  end.

(** The record of a message carries the identifier it was asked by. *)
Definition keeps_id : Prop :=
  forall mid r, parse_message mid = Ok r -> message_id r = Some mid.

(** The identifiers of the messages that parse. *)
Fixpoint parsed_ids (mids : list string) : list string :=
  match mids with
  | [] => []
  | mid :: mids' =>
      match parse_message mid with
      | Ok _ => mid :: parsed_ids mids'
      | Raise _ => parsed_ids mids'
      end
  end.

(** [n] further runs in append mode on the same search result. *)
Fixpoint rerun (n : nat) (out : store) (ids : list string) : store :=
  match n with
  | O => out
  | S n' => rerun n' (stored (main parse_message true out ids)) ids
  end.

Lemma parsed_ids_elem (mids : list string) (mid : string) :
  mid ∈ parsed_ids mids <->
  (mid ∈ mids) /\ (exists r, parse_message mid = Ok r).
Proof.
  induction mids as [|m mids IH]; simpl.
  - split; [intros H; inversion H|intros [H _]; inversion H].
  - destruct (parse_message m) as [p|e] eqn:E.
    + rewrite !elem_of_cons, IH. split.
      * intros [->|[H R]]; [eauto|auto].
      * intros [[->|H] R]; auto.
    + rewrite elem_of_cons, IH. split.
      * intros [H R]. auto.
      * intros [[->|H] [r R]]; [congruence|eauto].
Qed.

Lemma parsed_ids_NoDup (mids : list string) :
  NoDup mids -> NoDup (parsed_ids mids).
Proof.
  induction 1 as [|m mids N _ IH]; simpl; [constructor|].
  destruct (parse_message m); [|exact IH].
  constructor; [|exact IH].
  intros H. apply parsed_ids_elem in H. tauto.
Qed.

Lemma parsed_records_none (mids : list string) :
  (forall mid, mid ∈ mids -> exists e, parse_message mid = Raise e) ->
  parsed_records mids = [].
Proof.
  induction mids as [|m mids IH]; intros H; simpl; [reflexivity|].
  destruct (H m) as [e ->]; [left|].
  apply IH. intros mid I. apply H. right. exact I.
Qed.

Lemma written_ids (mids : list string) :
  keeps_id -> "" ∉ mids ->
  flat_map (row_ids headers) (map dict_to_row (parsed_records mids))
  = parsed_ids mids.
Proof.
  intros K. induction mids as [|m mids IH]; intros N; simpl; [reflexivity|].
  assert (N' : "" ∉ mids) by (intros H; apply N; right; exact H).
  destruct (parse_message m) as [p|e] eqn:E; [|exact (IH N')].
  cbn [map flat_map]. rewrite row_ids_written, (K m p E), (IH N').
  destruct m as [|c m]; [exfalso; apply N; left|reflexivity].
Qed.

Lemma to_process_elem (out : store) (ids : list string) (mid : string) :
  mid ∈ to_process_of true out ids <->
  (mid ∉ load_existing_ids out) /\ (mid ∈ ids).
Proof. unfold to_process_of. rewrite list_elem_of_filter. reflexivity. Qed.

Lemma stored_after_append (out : store) (ids : list string) :
  header_ok out ->
  header_ok (stored (main parse_message true out ids)) /\
  (keeps_id -> "" ∉ ids ->
   stored_ids (stored (main parse_message true out ids))
   = stored_ids out ++ parsed_ids (to_process_of true out ids)).
Proof.
  intros H. destruct (main_final true out ids) as (_ & _ & ->).
  set (mids := to_process_of true out ids).
  assert (N : "" ∉ ids -> "" ∉ mids).
  { intros N I. apply to_process_elem in I. tauto. }
  destruct (parsed_records mids) as [|p ps] eqn:E.
  - split; [exact H|]. intros K N0.
    rewrite <- (written_ids mids K (N N0)), E. cbn. rewrite app_nil_r.
    reflexivity.
  - unfold write_csv. destruct out as [file|].
    + destruct H as [data ->]. cbn [exists_path andb negb contents app].
      split; [eexists; reflexivity|]. intros K N0.
      cbn [stored_ids]. rewrite flat_map_app.
      rewrite <- E, (written_ids mids K (N N0)). reflexivity.
    + cbn [exists_path andb negb contents app].
      split; [eexists; reflexivity|]. intros K N0.
      cbn [stored_ids]. rewrite <- E, (written_ids mids K (N N0)).
      reflexivity.
Qed.

Lemma append_rerun_same_store (out : store) (ids : list string) :
  header_ok out -> keeps_id -> "" ∉ ids ->
  rows (final (main parse_message true
                 (stored (main parse_message true out ids)) ids)) = [] /\
  stored (main parse_message true
            (stored (main parse_message true out ids)) ids)
  = stored (main parse_message true out ids).
Proof.
  intros H K N.
  destruct (stored_after_append out ids H) as [_ S1]. specialize (S1 K N).
  set (out1 := stored (main parse_message true out ids)) in *.
  destruct (main_final true out1 ids) as (R & _ & ->).
  assert (E : parsed_records (to_process_of true out1 ids) = []).
  { apply parsed_records_none. intros mid I.
    apply to_process_elem in I as [I1 I2].
    rewrite load_existing_ids_stored, elem_of_list_to_set, S1 in I1.
    destruct (parse_message mid) as [p|e] eqn:P; [|eauto].
    exfalso. apply I1. apply elem_of_app.
    destruct (decide (mid ∈ stored_ids out)) as [D|D]; [left; exact D|].
    right. apply parsed_ids_elem. split; [|eauto].
    apply to_process_elem. split; [|exact I2].
    rewrite load_existing_ids_stored, elem_of_list_to_set. exact D. }
  rewrite R, E. split; reflexivity.
Qed.

(** Where append mode does repeat itself: on a store that is missing or
    begins with the header row, with candidate identifiers that are not
    empty and pairwise distinct, and a service whose records carry the
    identifier they were asked by, no candidate already in the store is
    handed to [parse_message]; every further run on the same search result
    collects no row and leaves the store as the first run left it; and the
    identifiers in the store stay pairwise distinct. *)
Lemma append_mode_is_idempotent (out : store) (ids : list string) :
  header_ok out -> keeps_id -> "" ∉ ids -> NoDup ids ->
  let r1 := main parse_message true out ids in
  (forall mid, mid ∈ ids -> mid ∈ stored_ids out ->
     mid ∉ fetched (final r1)) /\
  (forall n, rows (final (main parse_message true
                            (rerun n (stored r1) ids) ids)) = [] /\
             rerun (S n) (stored r1) ids = stored r1) /\
  (NoDup (stored_ids out) -> NoDup (stored_ids (stored r1))).
Proof.
  intros H K N D r1. split; [|split].
  - intros mid _ I F. unfold r1 in F.
    destruct (main_final true out ids) as (_ & E & _). rewrite E in F.
    apply to_process_elem in F as [F _].
    rewrite load_existing_ids_stored, elem_of_list_to_set in F. tauto.
  - assert (A : forall n, rerun n (stored r1) ids = stored r1).
    { induction n as [|n IH]; [reflexivity|]. cbn [rerun].
      unfold r1 at 1.
      rewrite (proj2 (append_rerun_same_store out ids H K N)).
      exact IH. }
    intros n. split; [|apply A].
    rewrite A. apply (append_rerun_same_store out ids H K N).
  - intros U. unfold r1.
    rewrite (proj2 (stored_after_append out ids H) K N).
    apply NoDup_app. split; [exact U|]. split.
    + intros mid I P. apply parsed_ids_elem in P as [P _].
      apply to_process_elem in P as [P _].
      rewrite load_existing_ids_stored, elem_of_list_to_set in P. tauto.
    + apply parsed_ids_NoDup. unfold to_process_of. apply NoDup_filter.
      exact D.
Qed.

End MainFacts.

(** *** A service for the examples

    Every message parses to a record that carries its identifier, but the
    message "bad", whose fetch fails. *)
Definition sample_record (mid : string) : record :=
  Record (Some mid) (Some ("t-" +:+ mid)) "2024-01-01T11:00:00+01:00"
    "Acme Recruiting" "jobs@acme.com" "Your application: Engineer"
    "Acme Recruiting" "Engineer" "Submitted" "Thank you for applying".

Definition parse_sample (mid : string) : result record :=
  if String.eqb mid "bad" then Raise HttpError else Ok (sample_record mid).

Definition main_sample : bool -> store -> list string -> run :=
  main parse_sample.

Lemma parse_sample_keeps_id : keeps_id parse_sample.
Proof.
  intros mid r. unfold parse_sample.
  destruct (String.eqb mid "bad"); [discriminate|].
  intros E. injection E as <-. reflexivity.
Qed.

(** A store written by an earlier run, holding the message "m0". *)
Definition old_store : store :=
  Some [headers; dict_to_row (sample_record "m0")].

Example first_run_appends :
  stored (main_sample true old_store ["m0"; "m1"; "bad"; "m2"])
  = Some [headers; dict_to_row (sample_record "m0");
          dict_to_row (sample_record "m1");
          dict_to_row (sample_record "m2")].
Proof. vm_compute. reflexivity. Qed.

Example first_run_trace :
  final (main_sample true old_store ["m0"; "m1"; "bad"; "m2"])
  = LoopState [sample_record "m1"; sample_record "m2"]
      [NewMessages 3 1; ErrorParsing "bad" HttpError; Wrote 2]
      ["m1"; "bad"; "m2"].
Proof. vm_compute. reflexivity. Qed.

Lemma main_skips_failed_messages_witness :
  let r := main_sample true old_store ["m0"; "m1"; "bad"; "m2"] in
  In "bad" (to_process_of true old_store ["m0"; "m1"; "bad"; "m2"]) /\
  parse_sample "bad" = Raise HttpError /\
  In (ErrorParsing "bad" HttpError) (printed (final r)) /\
  rows (final r) = parsed_records parse_sample (["m1"] ++ ["m2"]) /\
  In (sample_record "m2") (rows (final r)) /\
  exists mid, In mid (to_process_of true old_store ["m0"; "m1"; "bad"; "m2"])
              /\ parse_sample mid = Ok (sample_record "m2").
Proof.
  intros r.
  pose proof (main_skips_failed_messages parse_sample true old_store
                ["m0"; "m1"; "bad"; "m2"]) as (_ & _ & E & C & _).
  assert (I : In "bad" (to_process_of true old_store
                          ["m0"; "m1"; "bad"; "m2"]))
    by (vm_compute; auto).
  assert (J : In (sample_record "m2") (rows (final r)))
    by (vm_compute; auto).
  destruct (E "bad" HttpError I eq_refl) as [L S].
  split; [exact I|]. split; [reflexivity|]. split; [exact L|].
  split; [apply (S ["m1"] ["m2"]); vm_compute; reflexivity|].
  split; [exact J|]. exact (C (sample_record "m2") J).
Defined.

Lemma main_overwrite_fresh_store_witness :
  rows (final (main_sample false old_store ["m1"])) <> [] /\
  stored (main_sample false old_store ["m1"])
  = Some [headers; dict_to_row (sample_record "m1")] /\
  rows (final (main_sample false old_store ["bad"])) = [] /\
  stored (main_sample false old_store ["bad"]) = old_store.
Proof.
  assert (A : rows (final (main_sample false old_store ["m1"])) <> [])
    by (vm_compute; discriminate).
  assert (B : rows (final (main_sample false old_store ["bad"])) = [])
    by (vm_compute; reflexivity).
  split; [exact A|]. split.
  - apply (proj1 (proj2 (main_overwrite_fresh_store parse_sample old_store
                           ["m1"]))).
    exact A.
  - split; [exact B|].
    apply (proj2 (proj2 (main_overwrite_fresh_store parse_sample old_store
                           ["bad"]))).
    exact B.
Defined.

(** C5, as stated, fails: a run in overwrite mode that collects no record
    (here the search found nothing) writes nothing, and the store keeps
    what it held instead of becoming a header row alone. *)
Lemma main_overwrite_keeps_old_store :
  rows (final (main_sample false old_store [])) = [] /\
  stored (main_sample false old_store []) = old_store /\
  stored (main_sample false old_store []) <> Some [headers].
Proof.
  split; [vm_compute; reflexivity|].
  split; [vm_compute; reflexivity|].
  vm_compute. discriminate.
Qed.

Lemma load_existing_ids_skips_empty_witness :
  row_message_id headers [""; "t-9"] = Some "" /\
  load_existing_ids
    (Some (headers :: [dict_to_row (sample_record "m0")]
             ++ [""; "t-9"] :: []))
  = load_existing_ids
      (Some (headers :: [dict_to_row (sample_record "m0")] ++ [])) /\
  fetched (final (main_sample true
                    (Some (headers :: [dict_to_row (sample_record "m0")]
                             ++ [""; "t-9"] :: [])) [""; "m0"; "m1"]))
  = fetched (final (main_sample true
                      (Some (headers :: [dict_to_row (sample_record "m0")]
                               ++ [])) [""; "m0"; "m1"])).
Proof.
  assert (H : row_message_id headers [""; "t-9"] = Some "")
    by (vm_compute; reflexivity).
  pose proof (load_existing_ids_skips_empty parse_sample headers
                [dict_to_row (sample_record "m0")] [] [""; "t-9"]
                [""; "m0"; "m1"] (or_intror H)) as (A & _ & B).
  split; [exact H|]. split; [exact A|exact B].
Defined.

(** A row too short for the column and a blank row are skipped as well,
    and the empty candidate is processed, not skipped. *)
Example load_existing_ids_short_rows :
  elements (load_existing_ids
              (Some [["thread_id"; "message_id"]; ["t-1"]; []; ["t-2"; "m2"]]))
  = ["m2"] /\
  fetched (final (main_sample true (Some [headers; [""; "t-9"]]) [""]))
  = [""].
Proof. split; vm_compute; reflexivity. Qed.

Lemma append_mode_is_idempotent_witness :
  header_ok old_store /\
  keeps_id parse_sample /\
  ("" ∉ ["m0"; "m1"; "bad"; "m2"]) /\
  NoDup ["m0"; "m1"; "bad"; "m2"] /\
  ("m0" ∉ fetched (final (main_sample true old_store
                             ["m0"; "m1"; "bad"; "m2"]))) /\
  rerun parse_sample 3
    (stored (main_sample true old_store ["m0"; "m1"; "bad"; "m2"]))
    ["m0"; "m1"; "bad"; "m2"]
  = stored (main_sample true old_store ["m0"; "m1"; "bad"; "m2"]) /\
  NoDup (stored_ids
           (stored (main_sample true old_store ["m0"; "m1"; "bad"; "m2"]))).
Proof.
  assert (H : header_ok old_store) by (eexists; reflexivity).
  assert (N : "" ∉ ["m0"; "m1"; "bad"; "m2"]).
  { intros I. apply list_elem_of_In in I. simpl in I.
    repeat (destruct I as [I|I]; [discriminate I|]). exact I. }
  assert (D : NoDup ["m0"; "m1"; "bad"; "m2"]).
  { apply NoDup_ListNoDup.
    repeat (constructor;
            [simpl; intros I;
             repeat (destruct I as [I|I]; [discriminate I|]); exact I|]).
    constructor. }
  assert (U : NoDup (stored_ids old_store)).
  { apply NoDup_ListNoDup. vm_compute. constructor; [intros []|constructor]. }
  pose proof (append_mode_is_idempotent parse_sample old_store
                ["m0"; "m1"; "bad"; "m2"] H parse_sample_keeps_id N D)
    as (A & B & C).
  split; [exact H|]. split; [exact parse_sample_keeps_id|].
  split; [exact N|]. split; [exact D|]. split.
  - apply A; apply list_elem_of_In; vm_compute; auto.
  - split; [exact (proj2 (B 2))|exact (C U)].
Defined.

(** C2. The option [--append] is documented as appending to the existing
    file and skipping the message identifiers it holds.  On an output file
    that exists but is empty the first run appends its row without a
    header row, since [write_csv] writes the header only when the file is
    missing; the next run reads that row as the header, finds no
    identifier, fetches the same message again and appends its row a
    second time: the identifier is stored twice. *)
Theorem append_rerun_duplicates_on_empty_file :
  let r1 := main_sample true (Some []) ["m1"] in
  let r2 := main_sample true (stored r1) ["m1"] in
  stored r1 = Some [dict_to_row (sample_record "m1")] /\
  fetched (final r2) = ["m1"] /\
  stored r2 = Some [dict_to_row (sample_record "m1");
                    dict_to_row (sample_record "m1")] /\
  stored r2 <> stored r1.
Proof.
  split; [vm_compute; reflexivity|].
  split; [vm_compute; reflexivity|].
  split; [vm_compute; reflexivity|].
  vm_compute. discriminate.
Qed.

(** The other hypotheses of [append_mode_is_idempotent] are needed too: the
    loop does not remove a candidate that the search returns twice, and a
    message whose identifier is empty is never recognised as known. *)
Example append_repeated_candidate :
  stored (main_sample true None ["m1"; "m1"])
  = Some [headers; dict_to_row (sample_record "m1");
          dict_to_row (sample_record "m1")].
Proof. vm_compute. reflexivity. Qed.

Example append_empty_identifier :
  stored (main_sample true
            (stored (main_sample true None [""])) [""])
  = Some [headers; dict_to_row (sample_record "");
          dict_to_row (sample_record "")].
Proof. vm_compute. reflexivity. Qed.

End Pipeline.

(** ** Message normalizer: [parse_message] from its parts *)

Module Normalizer.
Import Text.

(** A header of the payload: [h.get("name", "")] and [h.get("value")]. *)
Record header : Type := Header {
  h_name : string;
  h_value : option string
}.

(** The message the service returns: [id], [threadId], [snippet] (the
    empty string when missing), the headers of the payload and its body
    structure. *)
Record raw_message : Type := Raw {
  raw_id : option string;
  raw_threadId : option string;
  raw_snippet : string;
  raw_headers : list header;
  raw_payload : Extract.payload
}.

(** The value of the first header of that name, whatever the case. *)
Fixpoint header_value (headers : list header) (name : string)
  : option string :=
  match headers with
  | [] => None
  | h :: headers' =>
      if String.eqb (lower (h_name h)) (lower name) then h_value h
      else header_value headers' name
  end.

Section ParseMessage.

Variable get_message : string -> result raw_message.
Variable utf8_decode_replace : list Z -> string.
Variable html_get_text : string -> result string.
Variable parseaddr : string -> string * string.
Variable datetime : Type.
Variable parsedate_to_datetime : string -> result datetime.
Variable tzinfo_is_none : datetime -> bool.
Variable utc_to_local : datetime -> result datetime.
Variable isoformat : datetime -> string.

Definition parse_message (msg_id : string) : result Pipeline.record :=
  raw <-- get_message msg_id ;;
  let payload := raw_payload raw in
  let headers := raw_headers raw in
  let subject :=
    match header_value headers "Subject" with
    | Some s => if truthy s then s else raw_snippet raw
    | None => raw_snippet raw
    end in
  let header_from := or_empty (header_value headers "From") in
  let header_date := header_value headers "Date" in
  date_iso <-- DateNorm.date_iso datetime parsedate_to_datetime
                 tzinfo_is_none utc_to_local isoformat header_date ;;
  body <-- Extract.message_body utf8_decode_replace html_get_text payload
             (raw_snippet raw) ;;
  let preview := strip (replace_char Regex.newline " " (take 1000 body)) in
  let status :=
    Status.label
      (Status.detect_status (subject +:+ String Regex.newline body)) in
  let company :=
    Company.guess_company_from_from parseaddr (Some header_from) in
  let job_title := Title.guess_jobtitle_from_subject subject in
  let (sender_name, sender_email) := parseaddr header_from in
  Ok (Pipeline.Record (raw_id raw) (raw_threadId raw) date_iso sender_name
        sender_email subject company job_title status preview).

(** X9. An error of the fetch or of the text extractor is the error of
    [parse_message]: nothing on the way catches it, and the date block,
    which comes before the extractor, lets the run go on whatever the Date
    header holds. *)
Lemma parse_message_propagates (msg_id : string) (e : exn) :
  get_message msg_id = Raise e \/
  (exists raw, get_message msg_id = Ok raw /\
     Extract.extract_text_from_payload utf8_decode_replace html_get_text
       (raw_payload raw) = Raise e) ->
  parse_message msg_id = Raise e.
Proof.
  unfold parse_message. intros [H|(raw & H & X)]; rewrite H; simpl;
    [reflexivity|].
  destruct (DateNorm.date_iso_total datetime parsedate_to_datetime
              tzinfo_is_none utc_to_local isoformat
              (header_value (raw_headers raw) "Date")) as [d ->].
  simpl. unfold Extract.message_body. rewrite X. reflexivity.
Qed.

End ParseMessage.

(** *** A mailbox for the examples: three messages, the second with a
    payload that is not base64. *)
Definition sample_mailbox (msg_id : string) : result raw_message :=
  if String.eqb msg_id "m1" then
    Ok (Raw (Some "m1") (Some "t1") "Thank you for applying"
          [ Header "From" (Some "<jobs@mail.greenhouse.io>");
            Header "subject" (Some "Your application: Senior Backend Engineer");
            Header "Date" (Some "Mon, 01 Jan 2024 10:00:00") ]
          Extract.mail_alternative)
  else if String.eqb msg_id "m2" then
    Ok (Raw (Some "m2") (Some "t2") "Interview"
          [ Header "Subject" (Some "Interview") ]
          (Extract.Payload "text/plain" (Some "A") []))
  else if String.eqb msg_id "m3" then
    Ok (Raw (Some "m3") (Some "t1") "We regret to inform you"
          [ Header "Subject" (Some "Quick update");
            Header "Date" (Some "soon") ]
          Extract.mail_no_text)
  else Raise HttpError.

Definition parse_message_sample : string -> result Pipeline.record :=
  parse_message sample_mailbox Extract.utf8_sample Extract.get_text_sample
    Company.parseaddr_sample DateNorm.sample_datetime
    DateNorm.parsedate_sample DateNorm.naive_sample DateNorm.to_local_sample
    DateNorm.isoformat_sample.

Example parse_m1 :
  parse_message_sample "m1"
  = Ok (Pipeline.Record (Some "m1") (Some "t1") "2024-01-01T11:00:00+01:00"
          "" "jobs@mail.greenhouse.io"
          "Your application: Senior Backend Engineer" "Greenhouse"
          "Senior Backend Engineer" "Unknown" "Hello").
Proof. vm_compute. reflexivity. Qed.

Example parse_m2 : parse_message_sample "m2" = Raise BinasciiError.
Proof. vm_compute. reflexivity. Qed.

Example parse_m3 :
  parse_message_sample "m3"
  = Ok (Pipeline.Record (Some "m3") (Some "t1") "soon" "" "" "Quick update"
          "" "Quick update" "Rejected" "We regret to inform you").
Proof. vm_compute. reflexivity. Qed.

Lemma parse_message_propagates_witness :
  (exists raw, sample_mailbox "m2" = Ok raw /\
     Extract.extract_sample (raw_payload raw) = Raise BinasciiError) /\
  parse_message_sample "m2" = Raise BinasciiError.
Proof.
  assert (H : exists raw, sample_mailbox "m2" = Ok raw /\
                Extract.extract_sample (raw_payload raw)
                = Raise BinasciiError).
  { eexists. split; [reflexivity|]. vm_compute. reflexivity. }
  split; [exact H|].
  apply (parse_message_propagates sample_mailbox Extract.utf8_sample
           Extract.get_text_sample Company.parseaddr_sample
           DateNorm.sample_datetime DateNorm.parsedate_sample
           DateNorm.naive_sample DateNorm.to_local_sample
           DateNorm.isoformat_sample "m2" BinasciiError).
  right. exact H.
Defined.

(** The whole run: the message with the bad payload is reported and
    skipped, the two others are written. *)
Example run_sample_mailbox :
  Pipeline.main parse_message_sample true None ["m1"; "m2"; "m3"]
  = Pipeline.Run
      (Some [ Pipeline.headers;
              ["m1"; "t1"; "2024-01-01T11:00:00+01:00"; "";
               "jobs@mail.greenhouse.io";
               "Your application: Senior Backend Engineer"; "Greenhouse";
               "Senior Backend Engineer"; "Unknown"; "Hello"];
              ["m3"; "t1"; "soon"; ""; ""; "Quick update"; "";
               "Quick update"; "Rejected"; "We regret to inform you"] ])
      (Pipeline.LoopState
         [ Pipeline.Record (Some "m1") (Some "t1")
             "2024-01-01T11:00:00+01:00" "" "jobs@mail.greenhouse.io"
             "Your application: Senior Backend Engineer" "Greenhouse"
             "Senior Backend Engineer" "Unknown" "Hello";
           Pipeline.Record (Some "m3") (Some "t1") "soon" "" ""
             "Quick update" "" "Quick update" "Rejected"
             "We regret to inform you" ]
         [ Pipeline.NewMessages 3 0;
           Pipeline.ErrorParsing "m2" BinasciiError;
           Pipeline.Wrote 2 ]
         ["m1"; "m2"; "m3"]).
Proof. vm_compute. reflexivity. Qed.

End Normalizer.

(** ** Search of the message identifiers *)

Module Search.
Import Text.

(** The answer to one [messages().list(...).execute()]: the identifiers of
    [res.get("messages", [])] and [res.get("nextPageToken")]. *)
Record page : Type := Page {
  messages : list string;
  nextPageToken : option string
}.

(** [ids[:n]]: a negative [n] counts from the end. *)
Definition slice_to (n : Z) (ids : list string) : list string :=
  if (0 <=? n)%Z then firstn (Z.to_nat n) ids
  else firstn (length ids - Z.to_nat (- n)) ids.

Section SearchMessageIds.

(** The service and the query: the page for a request, the first request
    carrying no page token; a request may raise. *)
Variable execute : option string -> result page.

Variable max_results : Z.

(** The [while] loop: [req] is the token of the pending request, [ids] the
    identifiers read so far.  [None] when [fuel] iterations did not end
    it. *)
Fixpoint search_loop (fuel : nat) (req : option string) (ids : list string)
  : option (result (list string)) :=
  match fuel with
  | O => None
  | S fuel' =>
      match execute req with
      | Raise e => Some (Raise e)
      | Ok res =>
          match messages res with
          | [] => Some (Ok ids)
          | _ :: _ =>
              let ids := ids ++ messages res in
              match nextPageToken res with
              | Some page_token =>
                  if truthy page_token then
                    if (max_results <=? Z.of_nat (length ids))%Z
                    then Some (Ok ids)
                    else search_loop fuel' (Some page_token) ids
                  else Some (Ok ids)
              | None => Some (Ok ids)
              end
          end
      end
  end.

(** [search_message_ids(service, query, max_results)], with the number of
    iterations the loop can need. *)
Definition search_message_ids : option (result (list string)) :=
  match search_loop (S (Z.to_nat max_results)) None [] with
  | Some (Ok ids) => Some (Ok (slice_to max_results ids))
  | Some (Raise e) => Some (Raise e)
  | None => None
  end.

(** The identifiers of the first [n] pages of the listing, which ends at an
    empty page, at a page without token and at a failing request. *)
Fixpoint listing (n : nat) (req : option string) : list string :=
  match n with
  | O => []
  | S n' =>
      match execute req with
      | Raise _ => []
      | Ok res =>
          match messages res with
          | [] => []
          | _ :: _ =>
              messages res ++
              match nextPageToken res with
              | Some page_token =>
                  if truthy page_token then listing n' (Some page_token)
                  else []
              | None => []
              end
          end
      end
  end.

Lemma search_loop_ends (fuel : nat) :
  forall req ids, 1 <= fuel -> Z.to_nat max_results - length ids <= fuel ->
  exists r, search_loop fuel req ids = Some r.
Proof.
  induction fuel as [|fuel IH]; intros req ids F H; [lia|].
  cbn [search_loop].
  destruct (execute req) as [res|e]; [|eauto].
  destruct (messages res) as [|m ms] eqn:M; [eauto|].
  destruct (nextPageToken res) as [tok|]; [|eauto].
  destruct (truthy tok); [|eauto].
  destruct (Z.leb_spec max_results (Z.of_nat (length (ids ++ m :: ms))))
    as [L|L]; [eauto|].
  rewrite length_app in L. simpl in L.
  apply IH; rewrite ?length_app; simpl; lia.
Qed.

Lemma search_loop_more_fuel (fuel : nat) :
  forall req ids r extra, search_loop fuel req ids = Some r ->
  search_loop (fuel + extra) req ids = Some r.
Proof.
  induction fuel as [|fuel IH]; intros req ids r extra H; [discriminate|].
  cbn [search_loop Nat.add] in *.
  destruct (execute req) as [res|e]; [|exact H].
  destruct (messages res) as [|m ms]; [exact H|].
  destruct (nextPageToken res) as [tok|]; [|exact H].
  destruct (truthy tok); [|exact H].
  destruct (max_results <=? _)%Z; [exact H|]. apply IH. exact H.
Qed.

(** The last step of [search_message_ids]: [return ids[:max_results]]. *)
Definition cut (r : result (list string)) : result (list string) :=
  match r with
  | Ok ids => Ok (slice_to max_results ids)
  | Raise e => Raise e
  end.

Lemma search_message_ids_cut (fuel : nat) (r : result (list string)) :
  search_loop fuel None [] = Some r ->
  fuel <= S (Z.to_nat max_results) ->
  search_message_ids = Some (cut r).
Proof.
  intros H L. unfold search_message_ids.
  replace (S (Z.to_nat max_results))
    with (fuel + (S (Z.to_nat max_results) - fuel)) by lia.
  rewrite (search_loop_more_fuel fuel None [] r _ H).
  destruct r; reflexivity.
Qed.

Lemma search_loop_listing (fuel : nat) :
  forall req ids0 ids, search_loop fuel req ids0 = Some (Ok ids) ->
  exists n, ids = ids0 ++ listing n req /\
    ((Z.of_nat (length ids) < max_results)%Z ->
     forall n', n <= n' -> listing n' req = listing n req).
Proof.
  induction fuel as [|fuel IH]; intros req ids0 ids H; [discriminate|].
  cbn [search_loop] in H.
  destruct (execute req) as [res|e] eqn:E; [|discriminate].
  destruct (messages res) as [|m ms] eqn:M.
  { injection H as <-. exists 0. split; [rewrite app_nil_r; reflexivity|].
    intros _ [|n'] _; [reflexivity|]. cbn [listing]. rewrite E, M.
    reflexivity. }
  destruct (nextPageToken res) as [tok|] eqn:T.
  - destruct (truthy tok) eqn:TT.
    + destruct (Z.leb_spec max_results
                  (Z.of_nat (length (ids0 ++ m :: ms)))) as [L|L].
      * injection H as <-. exists 1. split.
        { cbn [listing]. rewrite E, M, T, TT. cbn [listing].
          rewrite app_nil_r. reflexivity. }
        intros C. lia.
      * apply IH in H as (n & -> & St). exists (S n). split.
        { cbn [listing]. rewrite E, M, T, TT, <- app_assoc. reflexivity. }
        intros C [|n'] Hn; [lia|]. cbn [listing]. rewrite E, M, T, TT.
        rewrite (St C n') by lia. reflexivity.
    + injection H as <-. exists 1. split.
      { cbn [listing]. rewrite E, M, T, TT, app_nil_r. reflexivity. }
      intros _ [|n'] Hn; [lia|]. cbn [listing]. rewrite E, M, T, TT.
      reflexivity.
  - injection H as <-. exists 1. split.
    { cbn [listing]. rewrite E, M, T, app_nil_r. reflexivity. }
    intros _ [|n'] Hn; [lia|]. cbn [listing]. rewrite E, M, T.
    reflexivity.
Qed.

(** X1. The search always ends, whatever the service answers, also one
    that hands out page tokens for ever: the loop stops after at most
    [max_results] requests (one request when the limit is below one), with
    the identifiers read or with the error of a request. *)
Theorem search_message_ids_ends :
  exists r,
    search_loop (Nat.max 1 (Z.to_nat max_results)) None [] = Some r /\
    search_message_ids = Some (cut r).
Proof.
  destruct (search_loop_ends (Nat.max 1 (Z.to_nat max_results)) None [])
    as [r H]; [lia|simpl; lia|].
  exists r. split; [exact H|].
  apply (search_message_ids_cut _ r H). lia.
Qed.

(** X2. With a limit that is not negative the search returns at most that
    many identifiers. *)
Theorem search_message_ids_at_most_max (ids : list string) :
  (0 <= max_results)%Z ->
  search_message_ids = Some (Ok ids) ->
  (Z.of_nat (length ids) <= max_results)%Z.
Proof.
  intros P. unfold search_message_ids.
  destruct (search_loop _ None []) as [[l|e]|]; try discriminate.
  intros H. injection H as <-. unfold slice_to.
  destruct (Z.leb_spec 0 max_results); [|lia].
  rewrite length_firstn. lia.
Qed.

(** X3. With a limit that is not negative, the identifiers returned are
    the first [max_results] identifiers of the listing, in its order; and
    when fewer than the limit are returned they are the whole listing. *)
Theorem search_message_ids_prefix (ids : list string) :
  (0 <= max_results)%Z ->
  search_message_ids = Some (Ok ids) ->
  exists n,
    ids = firstn (Z.to_nat max_results) (listing n None) /\
    ((Z.of_nat (length ids) < max_results)%Z ->
     forall n', n <= n' -> listing n' None = ids).
Proof.
  intros P. unfold search_message_ids.
  destruct (search_loop _ None []) as [[l|e]|] eqn:E; try discriminate.
  intros H. injection H as <-.
  apply search_loop_listing in E as (n & -> & St). cbn [app] in *.
  unfold slice_to. destruct (Z.leb_spec 0 max_results); [|lia].
  exists n. split; [reflexivity|].
  intros C n' Hn.
  rewrite length_firstn in C.
  assert (L : length (listing n None) < Z.to_nat max_results) by lia.
  rewrite firstn_all2 by lia. apply St; [lia|exact Hn].
Qed.

(** X4. With a limit of zero or less one request is still made, and the
    result is its page cut by the slice: no identifier for zero, and for
    a negative limit the page without its last [- max_results]
    identifiers. *)
Theorem search_message_ids_without_limit (res : page) :
  (max_results <= 0)%Z ->
  execute None = Ok res ->
  search_message_ids = Some (Ok (slice_to max_results (messages res))) /\
  (max_results = 0%Z -> search_message_ids = Some (Ok [])) /\
  ((max_results < 0)%Z ->
   search_message_ids
   = Some (Ok (firstn (length (messages res) - Z.to_nat (- max_results))
                 (messages res)))).
Proof.
  intros N E.
  assert (L : search_loop 1 None [] = Some (Ok (messages res))).
  { cbn [search_loop]. rewrite E.
    destruct (messages res) as [|m ms] eqn:M; [reflexivity|].
    cbn [app]. destruct (nextPageToken res) as [tok|]; [|reflexivity].
    destruct (truthy tok); [|reflexivity].
    destruct (Z.leb_spec max_results (Z.of_nat (length (m :: ms))));
      [reflexivity|lia]. }
  assert (R : search_message_ids
              = Some (Ok (slice_to max_results (messages res)))).
  { apply (search_message_ids_cut 1 _ L). lia. }
  split; [exact R|]. split.
  - intros Z0. rewrite R, Z0. reflexivity.
  - intros Z0. rewrite R. unfold slice_to.
    destruct (Z.leb_spec 0 max_results); [lia|reflexivity].
Qed.

End SearchMessageIds.

(** *** A mailbox listing for the examples: three pages of two, one and
    two identifiers. *)
Definition sample_listing (req : option string) : result page :=
  match req with
  | None => Ok (Page ["a"; "b"] (Some "t1"))
  | Some tok =>
      if String.eqb tok "t1" then Ok (Page ["c"] (Some "t2"))
      else if String.eqb tok "t2" then Ok (Page ["d"; "e"] None)
      else Raise HttpError
  end.

Example search_three :
  search_message_ids sample_listing 3 = Some (Ok ["a"; "b"; "c"]).
Proof. reflexivity. Qed.

Example search_all :
  search_message_ids sample_listing 500
  = Some (Ok ["a"; "b"; "c"; "d"; "e"]).
Proof. vm_compute. reflexivity. Qed.

Lemma search_message_ids_at_most_max_witness :
  (0 <= 3)%Z /\
  search_message_ids sample_listing 3 = Some (Ok ["a"; "b"; "c"]) /\
  (Z.of_nat (length ["a"; "b"; "c"]) <= 3)%Z.
Proof.
  split; [lia|]. split; [reflexivity|].
  apply (search_message_ids_at_most_max sample_listing 3 ["a"; "b"; "c"]);
    [lia|reflexivity].
Defined.

Lemma search_message_ids_prefix_witness :
  exists n,
    ["a"; "b"; "c"; "d"; "e"]
    = firstn (Z.to_nat 9) (listing sample_listing n None) /\
    ((Z.of_nat (length ["a"; "b"; "c"; "d"; "e"]) < 9)%Z ->
     forall n', n <= n' ->
       listing sample_listing n' None = ["a"; "b"; "c"; "d"; "e"]).
Proof.
  apply (search_message_ids_prefix sample_listing 9
           ["a"; "b"; "c"; "d"; "e"]); [lia|reflexivity].
Defined.

Lemma search_message_ids_without_limit_witness :
  search_message_ids sample_listing (-1) = Some (Ok ["a"]) /\
  search_message_ids sample_listing 0 = Some (Ok []).
Proof.
  split.
  - apply (proj2 (proj2 (search_message_ids_without_limit sample_listing
                    (-1) (Page ["a"; "b"] (Some "t1")) ltac:(lia) eq_refl))).
    lia.
  - apply (proj1 (proj2 (search_message_ids_without_limit sample_listing 0
                    (Page ["a"; "b"] (Some "t1")) ltac:(lia) eq_refl))).
    reflexivity.
Defined.

End Search.

(** ** More on the status classifier *)

Module StatusFacts.
Import Text Regex Status.

(** [w in t] *)
Definition contains (w t : string) : Prop :=
  exists before after, t = before +:+ w +:+ after.

(** X5. The classification does not depend on the case of the letters:
    two texts with the same lower-case form get the same status. *)
Theorem detect_status_ignores_case (a b : string) :
  lower a = lower b ->
  detect_status a = detect_status b.
Proof.
  intros H. rewrite !detect_status_scan, H. reflexivity.
Qed.

Lemma detect_status_ignores_case_witness :
  lower "We REGRET to say" = lower "we regret to say" /\
  detect_status "We REGRET to say" = detect_status "we regret to say".
Proof.
  split; [reflexivity|].
  apply (detect_status_ignores_case "We REGRET to say"
           "we regret to say" eq_refl).
Defined.

Lemma lang_lit_exact (w u : string) : lang false (lit w) u -> u = w.
Proof.
  revert u. induction w as [|c w IH]; intros u H; cbn [lit lang] in H.
  - exact H.
  - destruct H as (u1 & u2 & -> & (d & -> & E) & L).
    unfold chr_eq in E. apply Ascii.eqb_eq in E. subst d.
    rewrite (IH _ L). reflexivity.
Qed.

Lemma contains_inside (w u t : string) :
  contains w u -> contains u t -> contains w t.
Proof.
  intros (b1 & a1 & ->) (b2 & a2 & ->).
  exists (b2 +:+ b1), (a1 +:+ a2).
  rewrite !append_assoc. reflexivity.
Qed.

Lemma found_contains (r : regex) (t : string) :
  found r t = true -> exists u, lang false r u /\ contains u t.
Proof.
  intros H. apply found_sound in H as (before & u & after & -> & L).
  exists u. split; [exact L|]. exists before, after. reflexivity.
Qed.

Lemma found_word (w t : string) :
  found (word w) t = true -> contains w t.
Proof.
  intros H. apply found_contains in H as (u & L & C).
  unfold word in L. cbn [lang] in L.
  destruct L as (u1 & u2 & -> & -> & (u3 & u4 & -> & L & ->)).
  apply lang_lit_exact in L. subst u3.
  cbn [String.append] in C. rewrite append_empty_r in C. exact C.
Qed.

Lemma contains_prefix (w rest t : string) :
  contains (w +:+ rest) t -> contains w t.
Proof.
  apply contains_inside. exists "", rest. reflexivity.
Qed.

Lemma contains_suffix (pre w t : string) :
  contains (pre +:+ w) t -> contains w t.
Proof.
  apply contains_inside. exists pre, "". rewrite append_empty_r.
  reflexivity.
Qed.

(** The words that make a status possible. *)
Definition keywords (c : status) : list string :=
  match c with
  | Offer => ["offer"]
  | Interview => ["interview"; "phone screen"]
  | Rejected => ["not selected"; "we regret"; "unfortunately"; "rejected"]
  | Submitted => ["application received"; "thank you for applying";
                  "application submitted"]
  | Assessment => ["assessment"; "code challenge"; "online test"]
  | Unknown => []
  end.

Lemma patterns_need_keywords (c : status) (t : string) :
  scan_patterns (patterns_of c) t = true ->
  Exists (fun w => contains w t) (keywords c).
Proof.
  destruct c; unfold patterns_of; cbn [patterns_in STATUS_PATTERNS status_eqb
    scan_patterns keywords];
    repeat match goal with
           | |- context [found ?p t] =>
               let F := fresh "F" in destruct (found p t) eqn:F
           end; try discriminate; intros _.
  - (* \boffer\b *)
    apply Exists_cons_hd. exact (found_word _ _ F).
  - (* congratulations.*offer *)
    apply Exists_cons_hd. apply found_contains in F0 as (u & L & C).
    cbn [lang] in L. destruct L as (u1 & u2 & -> & _ & (u3 & u4 & -> & _ & L)).
    apply lang_lit_exact in L. subst u4.
    eapply contains_inside; [|exact C]. exists (u1 +:+ u3), "".
    rewrite append_empty_r, append_assoc. reflexivity.
  - apply Exists_cons_hd. apply (contains_prefix "offer" " letter").
    exact (found_word _ _ F1).
  - apply Exists_cons_hd. exact (found_word _ _ F).
  - (* \bschedule.*interview\b *)
    apply Exists_cons_hd. apply found_contains in F0 as (u & L & C).
    cbn [lang] in L.
    destruct L as (u0 & u1 & -> & -> & (u2 & u3 & -> & _ &
                   (u4 & u5 & -> & _ & (u6 & u7 & -> & L & ->)))).
    apply lang_lit_exact in L. subst u6.
    eapply contains_inside; [|exact C]. exists (u2 +:+ u4), "".
    change ("" +:+ ?x) with x.
    rewrite !append_empty_r, !append_assoc. reflexivity.
  - apply Exists_cons_tl, Exists_cons_hd. exact (found_word _ _ F1).
  - apply Exists_cons_hd. apply (contains_suffix "technical " "interview").
    exact (found_word _ _ F2).
  - apply Exists_cons_hd. exact (found_word _ _ F).
  - apply Exists_cons_tl, Exists_cons_hd. exact (found_word _ _ F0).
  - do 2 apply Exists_cons_tl. apply Exists_cons_hd. exact (found_word _ _ F1).
  - do 3 apply Exists_cons_tl. apply Exists_cons_hd. exact (found_word _ _ F2).
  - apply Exists_cons_hd. exact (found_word _ _ F).
  - apply Exists_cons_tl, Exists_cons_hd. exact (found_word _ _ F0).
  - do 2 apply Exists_cons_tl. apply Exists_cons_hd. exact (found_word _ _ F1).
  - (* \bassess(ment|ment link)\b *)
    apply Exists_cons_hd. apply found_contains in F as (u & L & C).
    cbn [lang] in L.
    destruct L as (u0 & u1 & -> & -> & (u2 & u3 & -> & L &
                   (u4 & u5 & -> & [M|M] & ->))).
    + apply lang_lit_exact in L, M. subst u2 u4. exact C.
    + apply lang_lit_exact in L, M. subst u2 u4.
      apply (contains_prefix "assessment" " link"). exact C.
  - apply Exists_cons_tl, Exists_cons_hd. exact (found_word _ _ F0).
  - do 2 apply Exists_cons_tl. apply Exists_cons_hd. exact (found_word _ _ F1).
Qed.

Lemma scan_items_hit (items : list (status * list regex)) (t : string) :
  scan_items items t = Unknown \/
  exists ps, In (scan_items items t, ps) items /\ scan_patterns ps t = true.
Proof.
  induction items as [|[c ps] items IH]; [left; reflexivity|].
  cbn [scan_items]. destruct (scan_patterns ps t) eqn:E.
  - right. exists ps. split; [left; reflexivity|exact E].
  - destruct IH as [U|(ps' & I & H)]; [left; exact U|].
    right. exists ps'. split; [right; exact I|exact H].
Qed.

(** X6. A status other than Unknown is only given to a text that contains,
    in any case, one of the words of that status: "offer" for Offer,
    "interview" or "phone screen" for Interview, and so on. *)
Theorem detect_status_needs_keyword (text : string) :
  detect_status text = Unknown \/
  Exists (fun w => contains w (lower text)) (keywords (detect_status text)).
Proof.
  rewrite detect_status_scan.
  destruct (scan_items_hit STATUS_PATTERNS (lower text))
    as [U|(ps & I & H)]; [left; exact U|]. right.
  apply patterns_need_keywords.
  destruct (scan_items STATUS_PATTERNS (lower text));
    cbn [STATUS_PATTERNS In] in I;
    repeat (destruct I as [I|I];
            [first [discriminate I|injection I as <-; exact H]|]);
    destruct I.
Qed.

End StatusFacts.

(** ** More on the text extractor *)

Module ExtractFacts.
Import Text Extract.

Section Facts.

Variable utf8_decode_replace : list Z -> string.
Variable html_get_text : string -> result string.

Definition extract : payload -> result (option string) :=
  extract_text_from_payload utf8_decode_replace html_get_text.

(** The part gives no text: it returns [None] or the empty text. *)
Definition no_text (p : payload) : Prop :=
  exists text, extract p = Ok text /\ truthy_opt text = false.

Lemma for_parts_skips (before rest : list payload) :
  Forall no_text before ->
  for_parts extract (before ++ rest) = for_parts extract rest.
Proof.
  induction 1 as [|p before (text & E & F) _ IH]; [reflexivity|].
  cbn [app for_parts]. rewrite E. simpl. rewrite F. exact IH.
Qed.

Lemma extract_container (m : string) (d : option string)
  (ps : list payload) :
  current_level (Payload m d ps) = Neither ->
  extract (Payload m d ps) = for_parts extract ps.
Proof.
  intros L. unfold extract. rewrite extract_refines_spec.
  unfold extract_spec. rewrite L. cbn [parts].
  symmetry. apply for_parts_first_nonempty.
Qed.

(** X13. In a container the parts are decoded one after the other and the
    first that gives a text ends the walk: the parts behind it are never
    decoded, so a malformed one among them cannot fail the extraction;
    but an error in a part before any text is the result, whatever text
    the later parts hold. *)
Theorem extract_stops_at_first_text (m : string) (d : option string)
  (before after : list payload) (part : payload) :
  current_level (Payload m d (before ++ part :: after)) = Neither ->
  Forall no_text before ->
  (forall t, extract part = Ok (Some t) -> truthy t = true ->
     extract (Payload m d (before ++ part :: after)) = Ok (Some t)) /\
  (forall e, extract part = Raise e ->
     extract (Payload m d (before ++ part :: after)) = Raise e).
Proof.
  intros L F. rewrite (extract_container _ _ _ L), (for_parts_skips _ _ F).
  cbn [for_parts]. split.
  - intros t E T. rewrite E. simpl. rewrite T. reflexivity.
  - intros e E. rewrite E. reflexivity.
Qed.

Lemma for_parts_truthy (ps : list payload) (text : option string) :
  for_parts extract ps = Ok text -> text = None \/ truthy_opt text = true.
Proof.
  induction ps as [|p ps IH]; cbn [for_parts].
  - intros H. injection H as <-. left. reflexivity.
  - destruct (extract p) as [t|e]; [|discriminate]. simpl.
    destruct (truthy_opt t) eqn:T; [|exact IH].
    intros H. injection H as <-. right. exact T.
Qed.

(** X14. A container never returns the empty text: its result is a text
    that is not empty, or [None].  And the body of a message is empty only
    when the snippet is. *)
Theorem extract_container_text (p : payload) (snippet : string) :
  (current_level p = Neither ->
   forall t, extract p = Ok (Some t) -> truthy t = true) /\
  (forall body,
     message_body utf8_decode_replace html_get_text p snippet = Ok body ->
     truthy body = false -> truthy snippet = false /\ body = snippet).
Proof.
  split.
  - destruct p as [m d ps]. intros L t E.
    rewrite (extract_container _ _ _ L) in E.
    apply for_parts_truthy in E as [E|E]; [discriminate E|exact E].
  - intros body. unfold message_body.
    destruct (extract_text_from_payload _ _ p) as [text|e]; [|discriminate].
    simpl. destruct (truthy_opt text) eqn:T.
    + intros H. injection H as <-. destruct text as [t|]; [|discriminate T].
      cbn [or_empty truthy_opt] in *. congruence.
    + intros H. injection H as <-. auto.
Qed.

End Facts.

Lemma extract_stops_at_first_text_witness :
  extract utf8_sample get_text_sample
    (Payload "multipart/mixed" None
       ([Payload "text/plain" None []]
          ++ Payload "text/plain" (Some "SGVsbG8=") []
          :: [Payload "text/html" (Some "A") []]))
  = Ok (Some "Hello") /\
  extract utf8_sample get_text_sample
    (Payload "multipart/mixed" None
       ([Payload "text/plain" None []]
          ++ Payload "text/html" (Some "A") []
          :: [Payload "text/plain" (Some "SGVsbG8=") []]))
  = Raise BinasciiError.
Proof.
  assert (F : Forall (no_text utf8_sample get_text_sample)
                [Payload "text/plain" None []]).
  { repeat constructor. exists None. split; reflexivity. }
  split.
  - apply (proj1 (extract_stops_at_first_text utf8_sample get_text_sample
                    "multipart/mixed" None [Payload "text/plain" None []]
                    [Payload "text/html" (Some "A") []]
                    (Payload "text/plain" (Some "SGVsbG8=") [])
                    eq_refl F)); [vm_compute|]; reflexivity.
  - apply (proj2 (extract_stops_at_first_text utf8_sample get_text_sample
                    "multipart/mixed" None [Payload "text/plain" None []]
                    [Payload "text/plain" (Some "SGVsbG8=") []]
                    (Payload "text/html" (Some "A") [])
                    eq_refl F)). vm_compute. reflexivity.
Defined.

Lemma extract_container_text_witness :
  truthy "Hello" = true /\
  message_body utf8_sample get_text_sample mail_no_text "" = Ok "" /\
  (truthy "" = false /\ "" = "").
Proof.
  assert (E : message_body utf8_sample get_text_sample mail_no_text ""
              = Ok "") by (vm_compute; reflexivity).
  split; [|split; [exact E|]].
  - apply (proj1 (extract_container_text utf8_sample get_text_sample
                    mail_alternative "") eq_refl "Hello").
    vm_compute. reflexivity.
  - exact (proj2 (extract_container_text utf8_sample get_text_sample
                    mail_no_text "") "" E eq_refl).
Defined.

End ExtractFacts.

(** ** More on the company guesser *)

Module CompanyFacts.
Import Text Regex Company.

Definition without (c : ascii) (s : string) : Prop := mem_char c s = false.

Lemma split_on_without (sep c : ascii) (s : string) :
  without c s -> Forall (without c) (split_on sep s).
Proof.
  unfold without. induction s as [|d s IH]; cbn [split_on mem_char].
  - intros _. repeat constructor.
  - intros H. apply orb_false_iff in H as [H1 H2]. specialize (IH H2).
    destruct (split_on sep s) as [|w ws]; [repeat constructor|].
    inversion IH as [|? ? Hw Hws]; subst.
    destruct (Ascii.eqb d sep).
    + constructor; [reflexivity|]. constructor; assumption.
    + constructor; [|assumption]. cbn [mem_char]. rewrite H1. exact Hw.
Qed.

Lemma split_on_pieces (sep : ascii) (s : string) :
  Forall (without sep) (split_on sep s) /\ split_on sep s <> [].
Proof.
  unfold without. induction s as [|d s [IH N]]; cbn [split_on].
  - split; [repeat constructor|discriminate].
  - destruct (split_on sep s) as [|w ws]; [contradiction|].
    inversion IH as [|? ? Hw Hws]; subst.
    destruct (Ascii.eqb_spec d sep) as [->|D].
    + split; [|discriminate]. constructor; [reflexivity|].
      constructor; assumption.
    + split; [|discriminate]. constructor; [|assumption].
      cbn [mem_char]. rewrite Hw, orb_false_r.
      apply Ascii.eqb_neq. auto.
Qed.

Lemma last_item_Forall (P : string -> Prop) (l : list string) :
  l <> [] -> Forall P l -> P (last_item l).
Proof.
  unfold last_item. induction l as [|x l IH]; [contradiction|].
  intros _ F. inversion F as [|? ? Hx Hl]; subst.
  destruct l as [|y l]; [exact Hx|]. apply IH; [discriminate|exact Hl].
Qed.

Lemma first_item_Forall (P : string -> Prop) (l : list string) :
  l <> [] -> Forall P l -> P (first_item l).
Proof.
  destruct l as [|x l]; [contradiction|]. intros _ F.
  inversion F; assumption.
Qed.

Lemma map_chars_without (f : ascii -> ascii) (c : ascii) (s : string) :
  (forall d, f d = c -> d = c) ->
  without c s -> without c (map_chars f s).
Proof.
  unfold without. intros I. induction s as [|d s IH]; [reflexivity|].
  cbn [map_chars mem_char]. intros H. apply orb_false_iff in H as [H1 H2].
  rewrite (IH H2), orb_false_r. apply Ascii.eqb_neq. intros E.
  symmetry in E. apply I in E. subst d. rewrite Ascii.eqb_refl in H1.
  discriminate H1.
Qed.

Lemma case_keeps_punctuation (c : ascii) :
  is_upper c = false -> is_lower c = false ->
  (forall d, lower_char d = c -> d = c) /\
  (forall d, upper_char d = c -> d = c).
Proof.
  intros U L. split; intros d E.
  - unfold lower_char in E. destruct (is_upper d) eqn:D; [|exact E].
    subst c. exfalso. revert D L.
    destruct d as [[] [] [] [] [] [] [] []]; vm_compute; congruence.
  - unfold upper_char in E. destruct (is_lower d) eqn:D; [|exact E].
    subst c. exfalso. revert D U.
    destruct d as [[] [] [] [] [] [] [] []]; vm_compute; congruence.
Qed.

Lemma capitalize_without (c : ascii) (s : string) :
  is_upper c = false -> is_lower c = false ->
  without c s -> without c (capitalize s).
Proof.
  intros U L. destruct (case_keeps_punctuation c U L) as [Il Iu].
  unfold without. destruct s as [|d s]; [reflexivity|].
  cbn [capitalize mem_char]. intros H.
  apply orb_false_iff in H as [H1 H2].
  rewrite (map_chars_without lower_char c s Il H2), orb_false_r.
  apply Ascii.eqb_neq. intros E. symmetry in E. apply Iu in E. subst d.
  rewrite Ascii.eqb_refl in H1. discriminate H1.
Qed.

Lemma strip_prefix_without (c : ascii) (w s d : string) :
  strip_prefix w s = Some d -> without c s -> without c d.
Proof.
  unfold without. revert s. induction w as [|x w IH]; intros s H N.
  - injection H as <-. exact N.
  - cbn [strip_prefix] in H. destruct s as [|y s]; [discriminate|].
    destruct (Ascii.eqb x y); [|discriminate].
    cbn [mem_char] in N. apply orb_false_iff in N as [_ N].
    exact (IH _ H N).
Qed.

Lemma strip_generic_label_without (c : ascii) (labels : list string)
  (s : string) :
  without c s -> without c (strip_generic_label labels s).
Proof.
  intros N. induction labels as [|l labels IH]; [exact N|].
  cbn [strip_generic_label].
  destruct (strip_prefix l s) as [d|] eqn:E; [|exact IH].
  exact (strip_prefix_without c l s d E N).
Qed.

(** X15. A company guessed from the address, that is when the sender has
    no display name, holds neither a dot nor an [@]: it is one label of
    the domain. *)
Theorem guess_company_is_one_label (parseaddr : string -> string * string)
  (h : option string) :
  truthy (strip (fst (parseaddr (or_empty h)))) = false ->
  without "." (guess_company_from_from parseaddr h) /\
  without "@" (guess_company_from_from parseaddr h).
Proof.
  intros T. rewrite guess_company_refines_spec. unfold company_spec.
  rewrite T. destruct (mem_char "@" _); [|split; reflexivity].
  set (email := snd (parseaddr (or_empty h))).
  destruct (split_on_pieces "@" email) as [FA NA].
  pose proof (last_item_Forall _ _ NA FA) as D. fold (domain_of email) in D.
  set (dom := strip_generic_label generic_labels (lower (domain_of email))).
  assert (A : without "@" dom).
  { apply strip_generic_label_without, map_chars_without; [|exact D].
    apply case_keeps_punctuation; reflexivity. }
  destruct (split_on_pieces "." dom) as [FD ND].
  split; apply capitalize_without; try reflexivity.
  - exact (first_item_Forall _ _ ND FD).
  - apply (first_item_Forall _ _ ND). apply split_on_without. exact A.
Qed.

Lemma guess_company_is_one_label_witness :
  truthy (strip (fst (parseaddr_sample
                        (or_empty (Some "<jobs@careers.initech.co.uk>")))))
  = false /\
  guess_sample (Some "<jobs@careers.initech.co.uk>") = "Initech" /\
  without "." (guess_sample (Some "<jobs@careers.initech.co.uk>")).
Proof.
  split; [reflexivity|]. split; [vm_compute; reflexivity|].
  apply (proj1 (guess_company_is_one_label parseaddr_sample
                  (Some "<jobs@careers.initech.co.uk>") eq_refl)).
Defined.

End CompanyFacts.

(** ** More on the job-title guesser *)

Module TitleFacts.
Import Text Regex Title.

(** With [re.I] a literal word reads any text with the same lower-case
    form. *)
Lemma rmatch_lit_ignore_case {A : Type} (w : string) :
  forall (u s' : string) (k : mstate -> option A) (st : mstate),
    lower u = lower w -> rest st = u +:+ s' ->
    rmatch true (lit w) k st
    = k (MState (after_word u (prev st)) s' (groups st)).
Proof.
  induction w as [|c w IH]; intros u s' k st L R.
  - destruct u; [|discriminate L]. destruct st. cbn in *. subst. reflexivity.
  - destruct u as [|d u]; [discriminate L|].
    unfold lower in L. cbn [map_chars] in L. injection L as Lc Lu.
    cbn [lit rmatch]. unfold step. rewrite R, append_cons.
    unfold chr_eq. rewrite Lc, Ascii.eqb_refl.
    rewrite (IH u s'); [reflexivity|exact Lu|reflexivity].
Qed.

(** The group [(.+)] on a line that is not empty. *)
Lemma trailing_group_found (n : nat) (st : mstate) :
  first_line (rest st) <> EmptyString ->
  exists m, rmatch true (Group n (Plus Any)) Some st = Some m.
Proof.
  intros N.
  change (rmatch true (Group n (Plus Any)) Some st)
    with (step (fun d => negb (Ascii.eqb d newline))
            (rmatch true (Star Any) (fun st' => Some (capture n st st')))
            st).
  unfold step. destruct (rest st) as [|c s]; [contradiction|].
  cbn [first_line] in N. destruct (Ascii.eqb c newline); [contradiction|].
  cbn [negb]. rewrite rmatch_star_any by discriminate. eauto.
Qed.

(** The three phrases of the first pattern that stand alone. *)
Definition plain_phrase (u : string) : Prop :=
  lower u = "application for" \/ lower u = "applied for" \/
  lower u = "applied to".

Lemma phrase_read (u t : string) (p : option ascii) :
  plain_phrase u -> first_line t <> EmptyString ->
  exists st1 m,
    rest st1 = t /\
    rmatch true (Group 2 (Plus Any)) Some st1 = Some m /\
    match_here true APPLICATION p (u +:+ t) = Some m.
Proof.
  intros U N.
  set (st0 := MState p (u +:+ t) []).
  set (K := fun st' => rmatch true (Group 2 (Plus Any)) Some
                         (capture 1 st0 st')).
  change (match_here true APPLICATION p (u +:+ t))
    with (match rmatch true (lit "application for") K st0 with
          | Some a => Some a
          | None =>
              match rmatch true (lit "applied for") K st0 with
              | Some a => Some a
              | None =>
                  match rmatch true (lit "applied to") K st0 with
                  | Some a => Some a
                  | None =>
                      rmatch true
                        (Seq (lit "your application")
                           (Seq (OneOf ":-") (Star Space))) K st0
                  end
              end
          end).
  assert (hit : forall w, lower u = lower w ->
            exists st1 m, rest st1 = t /\
              rmatch true (Group 2 (Plus Any)) Some st1 = Some m /\
              rmatch true (lit w) K st0 = Some m).
  { intros w L.
    rewrite (rmatch_lit_ignore_case w u t K st0 L eq_refl). unfold K.
    set (st1 := capture 1 st0 _).
    destruct (trailing_group_found 2 st1 N) as [m M].
    exists st1, m. auto. }
  assert (miss : forall w m, rmatch true (lit w) K st0 = Some m ->
            exists r, lower u +:+ lower t = lower w +:+ r).
  { intros w m E. apply rmatch_sound in E as (st' & u1 & _ & R & L).
    apply Title.lang_lit_lower in L. cbn [rest st0] in R.
    apply (f_equal lower) in R. rewrite !Title.lower_append, L in R.
    eauto. }
  destruct U as [U|[U|U]].
  - destruct (hit "application for" U) as (st1 & m & R & M & H).
    exists st1, m. rewrite H. auto.
  - destruct (hit "applied for" U) as (st1 & m & R & M & H).
    exists st1, m.
    destruct (rmatch true (lit "application for") K st0) as [m'|] eqn:E1.
    { exfalso. destruct (miss _ _ E1) as [r X]. rewrite U in X.
      change (lower "application for") with "application for" in X.
      repeat rewrite append_cons in X. discriminate X. }
    rewrite H. auto.
  - destruct (hit "applied to" U) as (st1 & m & R & M & H).
    exists st1, m.
    destruct (rmatch true (lit "application for") K st0) as [m'|] eqn:E1.
    { exfalso. destruct (miss _ _ E1) as [r X]. rewrite U in X.
      change (lower "application for") with "application for" in X.
      repeat rewrite append_cons in X. discriminate X. }
    destruct (rmatch true (lit "applied for") K st0) as [m'|] eqn:E2.
    { exfalso. destruct (miss _ _ E2) as [r X]. rewrite U in X.
      change (lower "applied for") with "applied for" in X.
      repeat rewrite append_cons in X. discriminate X. }
    rewrite H. auto.
Qed.

(** X16. A subject that begins, in any case, with "application for",
    "applied for" or "applied to", and goes on on the same line, gives as
    job title the rest of that line, trimmed of white space and then of
    blanks, hyphens and colons. *)
Theorem guess_jobtitle_after_phrase (u t : string) :
  plain_phrase u -> first_line t <> EmptyString ->
  guess_jobtitle_from_subject (u +:+ t)
  = strip_chars " -:" (strip (first_line t)).
Proof.
  intros U N.
  destruct (phrase_read u t None U N) as (st1 & m & R & M & H).
  assert (S : search true APPLICATION (u +:+ t) = Some m).
  { unfold search. destruct (u +:+ t); cbn [search_from]; rewrite H;
      reflexivity. }
  apply trailing_group in M as (G & _ & _). rewrite R in G.
  unfold guess_jobtitle_from_subject.
  rewrite (Title.search_truthy _ _ _ (proj1 Title.search_empty_subject) S).
  cbn [negb]. rewrite S, G. reflexivity.
Qed.

Lemma guess_jobtitle_after_phrase_witness :
  plain_phrase "Applied To" /\
  first_line " Acme - Data Engineer -" <> EmptyString /\
  guess_jobtitle_from_subject ("Applied To" +:+ " Acme - Data Engineer -")
  = "Acme - Data Engineer".
Proof.
  assert (P : plain_phrase "Applied To") by (right; right; reflexivity).
  assert (N : first_line " Acme - Data Engineer -" <> EmptyString)
    by discriminate.
  split; [exact P|]. split; [exact N|].
  rewrite (guess_jobtitle_after_phrase _ _ P N). vm_compute. reflexivity.
Defined.

End TitleFacts.

(** ** More on persistence and the main loop *)

Module PipelineFacts.
Import Text Pipeline.

(** The identifier a written row is known by: the record's, when it has
    one that is not empty. *)
Definition written_id (r : record) : list string :=
  match message_id r with
  | Some mid => if truthy mid then [mid] else []
  | None => []
  end.

Lemma row_ids_written_id (r : record) :
  row_ids headers (dict_to_row r) = written_id r.
Proof.
  rewrite row_ids_written. unfold written_id.
  destruct (message_id r) as [mid|]; reflexivity.
Qed.

Lemma stored_ids_rows (rs : list record) :
  flat_map (row_ids headers) (map dict_to_row rs) = flat_map written_id rs.
Proof.
  induction rs as [|r rs IH]; [reflexivity|].
  cbn [map flat_map]. rewrite row_ids_written_id, IH. reflexivity.
Qed.

(** X17. Reading back what was written: after [write_csv] in overwrite
    mode, whatever the file held, or in append mode when no file exists,
    the identifiers [load_existing_ids] finds are those of the rows
    written that are not empty. *)
Theorem write_then_load (path : store) (rs : list record) :
  load_existing_ids (write_csv path rs false)
  = list_to_set (flat_map written_id rs) /\
  load_existing_ids (write_csv None rs true)
  = list_to_set (flat_map written_id rs).
Proof.
  split.
  - rewrite load_existing_ids_stored. unfold write_csv.
    cbn [andb negb app stored_ids]. rewrite stored_ids_rows. reflexivity.
  - rewrite load_existing_ids_stored. unfold write_csv.
    cbn [exists_path andb negb contents app stored_ids].
    rewrite stored_ids_rows. reflexivity.
Qed.

Section MainFacts2.

Variable parse_message : string -> result record.

(** X19. Overwrite mode gives the same store when it is run again on the
    same search result. *)
Theorem overwrite_rerun_same_store (out : store) (ids : list string) :
  stored (main parse_message false
            (stored (main parse_message false out ids)) ids)
  = stored (main parse_message false out ids).
Proof.
  destruct (main_final parse_message false
              (stored (main parse_message false out ids)) ids)
    as (_ & _ & ->).
  destruct (main_final parse_message false out ids) as (_ & _ & ->).
  rewrite !to_process_overwrite.
  destruct (parsed_records parse_message ids); reflexivity.
Qed.

(** The error lines of an output. *)
Definition is_error (o : output) : bool :=
  match o with
  | ErrorParsing _ _ => true
  | _ => false
  end.

Definition errors (log : list output) : nat :=
  length (List.filter is_error log).

Lemma errors_app (a b : list output) : errors (a ++ b) = errors a + errors b.
Proof. unfold errors. rewrite List.filter_app, length_app. reflexivity. Qed.

Lemma process_accounts (total : nat) (mids : list string) :
  forall i st,
    length (rows (process parse_message total i mids st))
    + errors (printed (process parse_message total i mids st))
    = length (rows st) + errors (printed st) + length mids.
Proof.
  induction mids as [|mid mids IH]; intros i st; cbn [process length];
    [lia|].
  rewrite IH. destruct (parse_message mid); cbn [rows printed].
  - rewrite length_app, errors_app. cbn [length].
    destruct (i mod 25 =? 0); cbn; lia.
  - rewrite errors_app. cbn. lia.
Qed.

(** X20. Every message processed ends as a row or as an error line: the
    rows collected and the error lines printed add up to the messages
    handed to [parse_message], which are at most the identifiers found;
    and a line is printed that tells how many are new and how many are
    skipped. *)
Theorem main_accounts (append : bool) (out : store) (ids : list string) :
  let r := main parse_message append out ids in
  length (rows (final r)) + errors (printed (final r))
  = length (fetched (final r)) /\
  length (fetched (final r)) <= length ids /\
  In (NewMessages (length (fetched (final r)))
        (length ids - length (fetched (final r))))
    (printed (final r)).
Proof.
  intros r.
  destruct (main_final parse_message append out ids) as (_ & F & _).
  fold r in F. rewrite F.
  set (mids := to_process_of append out ids).
  assert (L : length mids <= length ids).
  { unfold mids, to_process_of. apply length_filter. }
  subst r. unfold main. fold (to_process_of append out ids). fold mids.
  set (st0 := LoopState [] _ []).
  pose proof (process_accounts (length mids) mids 1 st0) as A.
  assert (P : exists tl, printed (process parse_message (length mids) 1
                                    mids st0)
                         = NewMessages (length mids)
                             (length ids - length mids) :: tl).
  { assert (G : forall ms i st o tl, printed st = o :: tl ->
        exists tl', printed (process parse_message (length mids) i ms st)
                    = o :: tl').
    { induction ms as [|m ms IH]; intros i st o tl E; cbn [process];
        [eauto|].
      destruct (parse_message m); eapply IH; cbn [printed]; rewrite E;
        reflexivity. }
    apply (G mids 1 st0 _ []). reflexivity. }
  destruct P as [tl P].
  destruct (rows (process parse_message (length mids) 1 mids st0))
    as [|x xs] eqn:E; cbn [final rows printed fetched];
    rewrite errors_app, P; cbn [app]; rewrite P in A; cbn in A |- *;
    repeat split; try lia; left; reflexivity.
Qed.

(** X21. With a service whose records carry the identifier they were asked
    by, a run in append mode collects rows only for identifiers of the
    search result that [load_existing_ids] does not find in the store,
    whatever the store holds. *)
Theorem append_rows_are_new (out : store) (ids : list string) (r : record) :
  keeps_id parse_message ->
  In r (rows (final (main parse_message true out ids))) ->
  exists mid,
    message_id r = Some mid /\ mid ∈ ids /\ mid ∉ load_existing_ids out.
Proof.
  intros K I.
  destruct (main_final parse_message true out ids) as (R & _ & _).
  rewrite R in I. apply parsed_records_in in I as (mid & M & P).
  exists mid. split; [exact (K mid r P)|].
  apply list_elem_of_In, to_process_elem in M. tauto.
Qed.

End MainFacts2.

Lemma append_rows_are_new_witness :
  exists mid,
    message_id (sample_record "m1") = Some mid /\
    mid ∈ ["m0"; "m1"] /\ mid ∉ load_existing_ids old_store.
Proof.
  apply (append_rows_are_new parse_sample old_store ["m0"; "m1"]
           (sample_record "m1") parse_sample_keeps_id).
  vm_compute. auto.
Defined.

End PipelineFacts.

(** ** More on the message normalizer *)

Module NormalizerFacts.
Import Text Regex Normalizer.

(** *** [header_value] *)

(** X7. The header is looked up without regard to case, on both sides:
    two names with the same lower-case form find the same value, and so
    do two header lists whose names differ only in case. *)
Theorem header_value_ignores_case (hs hs' : list header) (n1 n2 : string) :
  lower n1 = lower n2 ->
  Forall2 (fun h h' => lower (h_name h) = lower (h_name h') /\
                       h_value h = h_value h') hs hs' ->
  header_value hs n1 = header_value hs' n2.
Proof.
  intros N F. induction F as [|h h' hs hs' [Hn Hv] _ IH]; [reflexivity|].
  cbn [header_value]. rewrite Hn, Hv, N, IH. reflexivity.
Qed.

Lemma header_value_ignores_case_witness :
  header_value [Header "SUBJECT" (Some "Hello")] "Subject"
  = header_value [Header "subject" (Some "Hello")] "subject".
Proof.
  apply header_value_ignores_case; [reflexivity|].
  repeat constructor.
Defined.

(** X8. The first header of the name decides, also when it has no value;
    without a header of the name the result is [None]. *)
Theorem header_value_first_wins (before after : list header) (h : header)
  (name : string) :
  Forall (fun h' => lower (h_name h') <> lower name) before ->
  (lower (h_name h) = lower name ->
   header_value (before ++ h :: after) name = h_value h) /\
  header_value before name = None.
Proof.
  intros F. induction F as [|h' before N _ [IH1 IH2]].
  - split; [|reflexivity]. intros E. cbn [app header_value].
    rewrite E, String.eqb_refl. reflexivity.
  - apply String.eqb_neq in N. cbn [app header_value]. rewrite N.
    split; assumption.
Qed.

Lemma header_value_first_wins_witness :
  header_value
    ([Header "From" (Some "a@b.c")] ++ Header "date" None
       :: [Header "Date" (Some "Mon, 01 Jan 2024 10:00:00")]) "Date"
  = None.
Proof.
  apply (proj1 (header_value_first_wins [Header "From" (Some "a@b.c")]
                  [Header "Date" (Some "Mon, 01 Jan 2024 10:00:00")]
                  (Header "date" None) "Date"
                  ltac:(repeat constructor; discriminate))).
  reflexivity.
Defined.

(** *** Trimming *)

Lemma rstrip_by_idem (f : ascii -> bool) (s : string) :
  rstrip_by f (rstrip_by f s) = rstrip_by f s.
Proof.
  induction s as [|c s IH]; [reflexivity|]. cbn [rstrip_by].
  destruct (rstrip_by f s) as [|d r] eqn:E.
  - destruct (f c) eqn:F; [reflexivity|]. cbn [rstrip_by]. rewrite F.
    reflexivity.
  - cbn [rstrip_by]. cbn [rstrip_by] in IH.
    destruct (rstrip_by f r) as [|e r'] eqn:E2.
    + destruct (f d) eqn:F; [discriminate IH|]. rewrite IH. reflexivity.
    + rewrite IH. reflexivity.
Qed.

Lemma lstrip_by_head (f : ascii -> bool) (s : string) :
  lstrip_by f s = EmptyString \/
  exists c r, lstrip_by f s = String c r /\ f c = false.
Proof.
  induction s as [|c s IH]; [left; reflexivity|]. cbn [lstrip_by].
  destruct (f c) eqn:F; [exact IH|]. right. eauto.
Qed.

Lemma rstrip_by_head (f : ascii -> bool) (c : ascii) (r : string) :
  f c = false -> exists r', rstrip_by f (String c r) = String c r'.
Proof.
  intros F. cbn [rstrip_by].
  destruct (rstrip_by f r); [rewrite F|]; eauto.
Qed.

Lemma strip_by_idem (f : ascii -> bool) (s : string) :
  strip_by f (strip_by f s) = strip_by f s.
Proof.
  unfold strip_by.
  destruct (lstrip_by_head f s) as [->|(c & r & -> & F)]; [reflexivity|].
  destruct (rstrip_by_head f c r F) as [r' E]. rewrite E.
  cbn [lstrip_by]. rewrite F, <- E. apply rstrip_by_idem.
Qed.

Lemma lstrip_by_keeps_out (f : ascii -> bool) (c : ascii) (s : string) :
  mem_char c s = false -> mem_char c (lstrip_by f s) = false.
Proof.
  induction s as [|d s IH]; [reflexivity|]. cbn [lstrip_by mem_char].
  intros H. apply orb_false_iff in H as [H1 H2].
  destruct (f d); [exact (IH H2)|]. cbn [mem_char]. rewrite H1, H2.
  reflexivity.
Qed.

Lemma rstrip_by_keeps_out (f : ascii -> bool) (c : ascii) (s : string) :
  mem_char c s = false -> mem_char c (rstrip_by f s) = false.
Proof.
  induction s as [|d s IH]; [reflexivity|]. cbn [rstrip_by mem_char].
  intros H. apply orb_false_iff in H as [H1 H2]. specialize (IH H2).
  destruct (rstrip_by f s) as [|e r].
  - destruct (f d); [reflexivity|]. cbn [mem_char]. rewrite H1. reflexivity.
  - cbn [mem_char] in *. rewrite H1, IH. reflexivity.
Qed.

Lemma replace_char_out (a b : ascii) (s : string) :
  a <> b -> mem_char a (replace_char a b s) = false.
Proof.
  intros N. unfold replace_char. induction s as [|c s IH]; [reflexivity|].
  cbn [map_chars mem_char]. rewrite IH, orb_false_r.
  destruct (Ascii.eqb_spec c a) as [->|M]; apply Ascii.eqb_neq; auto.
Qed.

Lemma replace_char_length (a b : ascii) (s : string) :
  String.length (replace_char a b s) = String.length s.
Proof.
  unfold replace_char. induction s as [|c s IH]; [reflexivity|].
  cbn [map_chars String.length]. rewrite IH. reflexivity.
Qed.

(** The preview of a body: [(body or "")[:1000].replace("\n", " ").strip()]. *)
Definition preview_of (body : string) : string :=
  strip (replace_char newline " " (take 1000 body)).

Lemma preview_of_bounds (body : string) :
  String.length (preview_of body) <= 1000 /\
  mem_char newline (preview_of body) = false /\
  strip (preview_of body) = preview_of body.
Proof.
  unfold preview_of. split; [|split].
  - pose proof (Title.strip_length
                  (replace_char newline " " (take 1000 body))) as L.
    rewrite replace_char_length in L.
    pose proof (Title.take_length 1000 body). lia.
  - unfold strip, strip_by.
    apply rstrip_by_keeps_out, lstrip_by_keeps_out, replace_char_out.
    discriminate.
  - apply strip_by_idem.
Qed.

Section ParseMessageFacts.

Variable get_message : string -> result raw_message.
Variable utf8_decode_replace : list Z -> string.
Variable html_get_text : string -> result string.
Variable parseaddr : string -> string * string.
Variable datetime : Type.
Variable parsedate_to_datetime : string -> result datetime.
Variable tzinfo_is_none : datetime -> bool.
Variable utc_to_local : datetime -> result datetime.
Variable isoformat : datetime -> string.

Definition parse : string -> result Pipeline.record :=
  parse_message get_message utf8_decode_replace html_get_text parseaddr
    datetime parsedate_to_datetime tzinfo_is_none utc_to_local isoformat.

(** The fields of a record that was built. *)
Lemma parse_message_fields (msg_id : string) (r : Pipeline.record) :
  parse msg_id = Ok r ->
  exists raw body,
    get_message msg_id = Ok raw /\
    Extract.message_body utf8_decode_replace html_get_text
      (raw_payload raw) (raw_snippet raw) = Ok body /\
    Pipeline.message_id r = raw_id raw /\
    Pipeline.thread_id r = raw_threadId raw /\
    Pipeline.preview r = preview_of body /\
    Pipeline.status r
    = Status.label
        (Status.detect_status
           (Pipeline.subject r +:+ String newline body)) /\
    Pipeline.job_title_guess r
    = Title.guess_jobtitle_from_subject (Pipeline.subject r) /\
    (Pipeline.sender_name r, Pipeline.sender_email r)
    = parseaddr (or_empty (header_value (raw_headers raw) "From")) /\
    Pipeline.company_guess r
    = Company.guess_company_from_from parseaddr
        (Some (or_empty (header_value (raw_headers raw) "From"))) /\
    Pipeline.subject r
    = match header_value (raw_headers raw) "Subject" with
      | Some s => if truthy s then s else raw_snippet raw
      | None => raw_snippet raw
      end.
Proof.
  unfold parse, parse_message.
  destruct (get_message msg_id) as [raw|e]; [|discriminate]. simpl.
  destruct (DateNorm.date_iso _ _ _ _ _ _) as [d|e]; [|discriminate]. simpl.
  destruct (Extract.message_body _ _ _ _) as [body|e] eqn:B; [|discriminate].
  simpl. destruct (parseaddr _) as [n a] eqn:P.
  intros H. injection H as <-. exists raw, body. cbn.
  repeat split; try reflexivity; first [exact B|symmetry; exact P].
Qed.

(** X10. The preview of every record has at most 1000 characters, holds
    no newline, and has no white space at its ends. *)
Theorem parse_message_preview (msg_id : string) (r : Pipeline.record) :
  parse msg_id = Ok r ->
  String.length (Pipeline.preview r) <= 1000 /\
  mem_char newline (Pipeline.preview r) = false /\
  strip (Pipeline.preview r) = Pipeline.preview r.
Proof.
  intros H.
  apply parse_message_fields in H as (raw & body & _ & _ & _ & _ & -> & _).
  apply preview_of_bounds.
Qed.

(** X11. In every record the guesses agree with the stored fields: the
    company guess is the trimmed sender name whenever the sender has a
    name, the job title is the guess for the stored subject, the subject
    is the Subject header or, when that is missing or empty, the snippet,
    and the status is one of the six labels. *)
Theorem parse_message_fields_agree (msg_id : string) (r : Pipeline.record) :
  parse msg_id = Ok r ->
  (truthy (strip (Pipeline.sender_name r)) = true ->
   Pipeline.company_guess r = strip (Pipeline.sender_name r)) /\
  (truthy (strip (Pipeline.sender_name r)) = false ->
   mem_char "@" (Pipeline.sender_email r) = false ->
   Pipeline.company_guess r = "") /\
  Pipeline.job_title_guess r
  = Title.guess_jobtitle_from_subject (Pipeline.subject r) /\
  (exists raw, get_message msg_id = Ok raw /\
     Pipeline.subject r
     = match header_value (raw_headers raw) "Subject" with
       | Some s => if truthy s then s else raw_snippet raw
       | None => raw_snippet raw
       end) /\
  In (Pipeline.status r)
    ["Offer"; "Interview"; "Rejected"; "Submitted"; "Assessment"; "Unknown"].
Proof.
  intros H.
  apply parse_message_fields in H
    as (raw & body & G & _ & _ & _ & _ & St & J & P & C & Su).
  assert (K : Pipeline.company_guess r
              = Company.company_spec (Pipeline.sender_name r)
                  (Pipeline.sender_email r)).
  { rewrite C, Company.guess_company_refines_spec. cbn [or_empty].
    rewrite <- P. reflexivity. }
  split; [|split; [|split; [exact J|split; [eauto|]]]].
  - intros T. rewrite K. unfold Company.company_spec. rewrite T.
    reflexivity.
  - intros T A. rewrite K. unfold Company.company_spec. rewrite T, A.
    reflexivity.
  - rewrite St. destruct (Status.detect_status _); simpl; auto 10.
Qed.

(** X12. When the service returns each message under the identifier it
    was asked by, the records of [parse_message] carry that identifier;
    then, starting with no output file and with identifiers that are not
    empty, a second run in append mode collects no row and leaves the
    store as the first run left it. *)
Theorem end_to_end_rerun (ids : list string) :
  (forall mid raw, get_message mid = Ok raw -> raw_id raw = Some mid) ->
  "" ∉ ids ->
  Pipeline.keeps_id parse /\
  Pipeline.rows
    (Pipeline.final
       (Pipeline.main parse true
          (Pipeline.stored (Pipeline.main parse true None ids)) ids)) = [] /\
  Pipeline.stored
    (Pipeline.main parse true
       (Pipeline.stored (Pipeline.main parse true None ids)) ids)
  = Pipeline.stored (Pipeline.main parse true None ids).
Proof.
  intros G N.
  assert (K : Pipeline.keeps_id parse).
  { intros mid r P.
    apply parse_message_fields in P as (raw & body & E & _ & -> & _).
    exact (G mid raw E). }
  split; [exact K|].
  exact (Pipeline.append_rerun_same_store parse None ids I K N).
Qed.

End ParseMessageFacts.

Definition parse_mailbox : string -> result Pipeline.record :=
  parse sample_mailbox Extract.utf8_sample Extract.get_text_sample
    Company.parseaddr_sample DateNorm.sample_datetime
    DateNorm.parsedate_sample DateNorm.naive_sample DateNorm.to_local_sample
    DateNorm.isoformat_sample.

Lemma sample_mailbox_ids (mid : string) (raw : raw_message) :
  sample_mailbox mid = Ok raw -> raw_id raw = Some mid.
Proof.
  unfold sample_mailbox.
  destruct (String.eqb_spec mid "m1") as [->|_];
    [intros H; injection H as <-; reflexivity|].
  destruct (String.eqb_spec mid "m2") as [->|_];
    [intros H; injection H as <-; reflexivity|].
  destruct (String.eqb_spec mid "m3") as [->|_];
    [intros H; injection H as <-; reflexivity|discriminate].
Qed.

Lemma parse_message_preview_witness :
  parse_mailbox "m3"
  = Ok (Pipeline.Record (Some "m3") (Some "t1") "soon" "" "" "Quick update"
          "" "Quick update" "Rejected" "We regret to inform you") /\
  String.length "We regret to inform you" <= 1000.
Proof.
  assert (E : parse_mailbox "m3"
              = Ok (Pipeline.Record (Some "m3") (Some "t1") "soon" "" ""
                      "Quick update" "" "Quick update" "Rejected"
                      "We regret to inform you"))
    by (vm_compute; reflexivity).
  split; [exact E|].
  exact (proj1 (parse_message_preview _ _ _ _ _ _ _ _ _ "m3" _ E)).
Defined.

Lemma parse_message_fields_agree_witness :
  parse_mailbox "m1"
  = Ok (Pipeline.Record (Some "m1") (Some "t1") "2024-01-01T11:00:00+01:00"
          "" "jobs@mail.greenhouse.io"
          "Your application: Senior Backend Engineer" "Greenhouse"
          "Senior Backend Engineer" "Unknown" "Hello") /\
  "Senior Backend Engineer"
  = Title.guess_jobtitle_from_subject
      "Your application: Senior Backend Engineer".
Proof.
  assert (E : parse_mailbox "m1"
              = Ok (Pipeline.Record (Some "m1") (Some "t1")
                      "2024-01-01T11:00:00+01:00" ""
                      "jobs@mail.greenhouse.io"
                      "Your application: Senior Backend Engineer"
                      "Greenhouse" "Senior Backend Engineer" "Unknown"
                      "Hello"))
    by (vm_compute; reflexivity).
  split; [exact E|].
  exact (proj1 (proj2 (proj2
           (parse_message_fields_agree _ _ _ _ _ _ _ _ _ "m1" _ E)))).
Defined.

Lemma end_to_end_rerun_witness :
  ("" ∉ ["m1"; "m2"; "m3"]) /\
  Pipeline.stored
    (Pipeline.main parse_mailbox true
       (Pipeline.stored
          (Pipeline.main parse_mailbox true None ["m1"; "m2"; "m3"]))
       ["m1"; "m2"; "m3"])
  = Pipeline.stored (Pipeline.main parse_mailbox true None ["m1"; "m2"; "m3"]).
Proof.
  assert (N : "" ∉ ["m1"; "m2"; "m3"]).
  { intros I. apply list_elem_of_In in I. simpl in I.
    repeat (destruct I as [I|I]; [discriminate I|]). exact I. }
  split; [exact N|].
  exact (proj2 (proj2 (end_to_end_rerun sample_mailbox Extract.utf8_sample
           Extract.get_text_sample Company.parseaddr_sample
           DateNorm.sample_datetime DateNorm.parsedate_sample
           DateNorm.naive_sample DateNorm.to_local_sample
           DateNorm.isoformat_sample ["m1"; "m2"; "m3"]
           sample_mailbox_ids N))).
Defined.

End NormalizerFacts.
